(** * CommonSelect: the desktop dropdown/select overlay

    A shallow embedding of the script part of
    [app/frontend/apps/desktop/components/CommonSelect/CommonSelect.vue]
    and the properties of its open/close/select logic.

    Conventions of the embedding.
    - A component instance is a record of its props, its local refs and
      variables, and the log of the effects it has performed, oldest first.
      The log also records the writes to [showDropdown] and the pushes on the
      bound array.
    - [localValue] is [useVModel(props, 'modelValue', emit)] of @vueuse/core:
      reading it reads [props.modelValue], assigning it only emits
      [update:modelValue].  The parent binds [modelValue] with [v-model]: its
      handler stores the emitted value at once, and the props show it after
      the parent's next render.  Between the two the value is [pending]; the
      bound value is the pending value if there is one and [props.modelValue]
      otherwise.  [push] on [props.modelValue] changes that array in place; it
      is the bound array as long as nothing is pending.
    - [emit] calls the parent's handlers synchronously; the log entry of an
      emission records the bound value the handler finds at that point.
    - [hasDirectionUp] and [dropdownStyle] are Vue [computed]s over plain
      variables.  Their getters are functions of the state; what the template
      reads is the cached value, kept until a ref the getter had read changes.
    - Option values are [string | number | boolean]; numeric option values are
      taken to be integers.  Pixel measures are the finite doubles the refs
      hold, which are rationals; halving one (short of underflow) and
      comparing two is exact, sums and differences are left symbolic.
    - A JavaScript string that is cut or measured is the list of its UTF-16
      code units.
    - The instances of the page live in a heap, by handle; the registry holds
      handles, and the journal of the page is the order in which the
      instances performed their effects. *)

From Stdlib Require Import QArith.
From stdpp Require Import base list strings.

Local Open Scope Z_scope.
Local Open Scope nat_scope.

(** ** Data model *)

(** [string | number | boolean]; [=] on it is JavaScript's [===]. *)
Inductive Primitive :=
| PString (s : string)
| PNumber (n : Z)
| PBoolean (b : bool).

Global Instance Primitive_eq_dec : EqDecision Primitive.
Proof. solve_decision. Defined.

(** [Props.modelValue]:
    [string | number | boolean | (string | number | boolean)[] | null],
    optional. *)
Inductive ModelValue :=
| MUndefined
| MNull
| MPrimitive (p : Primitive)
| MArray (a : list Primitive).

Global Instance ModelValue_eq_dec : EqDecision ModelValue.
Proof. solve_decision. Defined.

(** A JavaScript string by its UTF-16 code units. *)
Definition JsString := list N.

(** The code units of a string of ASCII characters. *)
Definition ofAscii (s : string) : JsString :=
  map Ascii.N_of_ascii (String.list_ascii_of_string s).

(** Modelled from the spec: [SelectOption], whose declaration
    ([#shared/components/CommonSelect/types.ts]) is not among the sources:
    "value: primitive, label: string, disabled: bool"; an absent [disabled]
    is [false].  The optional match of the filter, used for highlighting
    only, is left out. *)
Record SelectOption := {
  value : Primitive;
  label : JsString;
  disabled : bool;
}.

Global Instance SelectOption_eq_dec : EqDecision SelectOption.
Proof. solve_decision. Defined.

Record Props := {
  modelValue : ModelValue;
  options : list SelectOption;
  passive : bool;
  multiple : bool;
  noClose : bool;
  noRefocus : bool;
  owner : option string;
}.

(** A handle on a DOM element. *)
Definition HTMLElement := nat.

(** What [getActiveElement] reads from the page. *)
Record Document := {
  activeElement : option HTMLElement;
  getElementById : string → option HTMLElement;
}.

(** [UseElementBoundingReturn], each ref by its current value. *)
Module Bounding.
Record t := { y : Q; top : Q; left : Q; width : Q; height : Q }.
End Bounding.

Inductive Emit :=
| UpdateModelValue (v : ModelValue)
| Select (o : SelectOption)
| Close.

(** What an instance does to the world around it.
    - [Emitted e seen]: [emit(e)], whose handlers run at once and find the
      bound value to be [seen];
    - [ArrayPush v]: [push(v)] on [props.modelValue], in place;
    - [SetShowDropdown b]: [showDropdown.value = b];
    - [NextTickFocus]: [nextTick(() => lastFocusableOutsideElement?.focus())],
      which reads the variable when it runs;
    - [NextTickTestFlag], [AnimationFrameTestFlag]: the test flags;
    - [ClickOutsideListener ignore]: [onClickOutside(dropdownElement,
      closeDropdown, { ignore })];
    - [Focus el]: [el.focus()]. *)
Inductive Effect :=
| Emitted (e : Emit) (seen : ModelValue)
| ArrayPush (v : Primitive)
| SetShowDropdown (b : bool)
| NextTickFocus
| NextTickTestFlag (flag : string)
| ClickOutsideListener (ignore : option HTMLElement)
| AnimationFrameTestFlag (flag : string)
| Focus (el : HTMLElement).

(** An instance.  Beside the props and the variables of the script:
    - [pending]: the value assigned to [localValue] since the props were last
      passed down, which the parent's [v-model] holds and the props do not
      show yet;
    - [directionCache]: the cached value of the computed [hasDirectionUp],
      [None] as long as it was never read or after Vue has marked it dirty;
    - [exposedRaw]: whether Vue has marked the exposed instance raw (a
      template ref of the parent does), in which case reading [isOpen]
      through the registry yields the computed ref itself, not its value. *)
Record Component := {
  props : Props;
  pending : option ModelValue;
  showDropdown : bool;
  inputElementBounds : option Bounding.t;
  windowHeight : option Q;
  directionCache : option bool;
  tabTrap : bool;
  lastFocusableOutsideElement : option HTMLElement;
  exposedRaw : bool;
  effects : list Effect;
}.

(** ** Field updates *)

(** The parent passes new props: nothing is pending any more. *)
Definition set_props (p : Props) (c : Component) : Component :=
  {| props := p;
     pending := None;
     showDropdown := showDropdown c;
     inputElementBounds := inputElementBounds c;
     windowHeight := windowHeight c;
     directionCache := directionCache c;
     tabTrap := tabTrap c;
     lastFocusableOutsideElement := lastFocusableOutsideElement c;
     exposedRaw := exposedRaw c;
     effects := effects c |}.

Definition withModelValue (v : ModelValue) (p : Props) : Props :=
  {| modelValue := v;
     options := options p;
     passive := passive p;
     multiple := multiple p;
     noClose := noClose p;
     noRefocus := noRefocus p;
     owner := owner p |}.

(** A change of the array [props.modelValue] in place. *)
Definition set_modelValue (v : ModelValue) (c : Component) : Component :=
  {| props := withModelValue v (props c);
     pending := pending c;
     showDropdown := showDropdown c;
     inputElementBounds := inputElementBounds c;
     windowHeight := windowHeight c;
     directionCache := directionCache c;
     tabTrap := tabTrap c;
     lastFocusableOutsideElement := lastFocusableOutsideElement c;
     exposedRaw := exposedRaw c;
     effects := effects c |}.

Definition set_pending (v : option ModelValue) (c : Component) : Component :=
  {| props := props c;
     pending := v;
     showDropdown := showDropdown c;
     inputElementBounds := inputElementBounds c;
     windowHeight := windowHeight c;
     directionCache := directionCache c;
     tabTrap := tabTrap c;
     lastFocusableOutsideElement := lastFocusableOutsideElement c;
     exposedRaw := exposedRaw c;
     effects := effects c |}.

Definition set_showDropdown (b : bool) (c : Component) : Component :=
  {| props := props c;
     pending := pending c;
     showDropdown := b;
     inputElementBounds := inputElementBounds c;
     windowHeight := windowHeight c;
     directionCache := directionCache c;
     tabTrap := tabTrap c;
     lastFocusableOutsideElement := lastFocusableOutsideElement c;
     exposedRaw := exposedRaw c;
     effects := effects c |}.

Definition set_geometry (bounds : Bounding.t) (height : Q) (c : Component)
  : Component :=
  {| props := props c;
     pending := pending c;
     showDropdown := showDropdown c;
     inputElementBounds := Some bounds;
     windowHeight := Some height;
     directionCache := directionCache c;
     tabTrap := tabTrap c;
     lastFocusableOutsideElement := lastFocusableOutsideElement c;
     exposedRaw := exposedRaw c;
     effects := effects c |}.

Definition set_directionCache (v : option bool) (c : Component) : Component :=
  {| props := props c;
     pending := pending c;
     showDropdown := showDropdown c;
     inputElementBounds := inputElementBounds c;
     windowHeight := windowHeight c;
     directionCache := v;
     tabTrap := tabTrap c;
     lastFocusableOutsideElement := lastFocusableOutsideElement c;
     exposedRaw := exposedRaw c;
     effects := effects c |}.

Definition set_tabTrap (b : bool) (c : Component) : Component :=
  {| props := props c;
     pending := pending c;
     showDropdown := showDropdown c;
     inputElementBounds := inputElementBounds c;
     windowHeight := windowHeight c;
     directionCache := directionCache c;
     tabTrap := b;
     lastFocusableOutsideElement := lastFocusableOutsideElement c;
     exposedRaw := exposedRaw c;
     effects := effects c |}.

Definition set_lastFocusableOutsideElement (el : option HTMLElement)
    (c : Component) : Component :=
  {| props := props c;
     pending := pending c;
     showDropdown := showDropdown c;
     inputElementBounds := inputElementBounds c;
     windowHeight := windowHeight c;
     directionCache := directionCache c;
     tabTrap := tabTrap c;
     lastFocusableOutsideElement := el;
     exposedRaw := exposedRaw c;
     effects := effects c |}.

Definition set_exposedRaw (b : bool) (c : Component) : Component :=
  {| props := props c;
     pending := pending c;
     showDropdown := showDropdown c;
     inputElementBounds := inputElementBounds c;
     windowHeight := windowHeight c;
     directionCache := directionCache c;
     tabTrap := tabTrap c;
     lastFocusableOutsideElement := lastFocusableOutsideElement c;
     exposedRaw := b;
     effects := effects c |}.

Definition perform (e : Effect) (c : Component) : Component :=
  {| props := props c;
     pending := pending c;
     showDropdown := showDropdown c;
     inputElementBounds := inputElementBounds c;
     windowHeight := windowHeight c;
     directionCache := directionCache c;
     tabTrap := tabTrap c;
     lastFocusableOutsideElement := lastFocusableOutsideElement c;
     exposedRaw := exposedRaw c;
     effects := effects c ++ [e] |}.

(** ** The binding *)

(** The value the parent's [v-model] holds. *)
Definition boundValue (c : Component) : ModelValue :=
  default (modelValue (props c)) (pending c).

(** The parent renders and passes the bound value down. *)
Definition rerender (c : Component) : Component :=
  set_props (withModelValue (boundValue c) (props c)) c.

(** ** The script *)

(** [emit(e, ...)]: the handler runs now and finds the bound value of now. *)
Definition emit (e : Emit) (c : Component) : Component :=
  perform (Emitted e (boundValue c)) c.

(** [localValue.value = v]: the setter of [useVModel] emits, and the handler
    of the [v-model] stores [v]; the props are left as they are. *)
Definition assignLocalValue (v : ModelValue) (c : Component) : Component :=
  set_pending (Some v) (emit (UpdateModelValue v) c).

(** [localValue.value.push(v)], where [props.modelValue] is the array [a]. *)
Definition pushLocalValue (a : list Primitive) (v : Primitive) (c : Component)
  : Component :=
  set_modelValue (MArray (a ++ [v])) (perform (ArrayPush v) c).

(** [showDropdown.value = b]. *)
Definition writeShowDropdown (b : bool) (c : Component) : Component :=
  set_showDropdown b (perform (SetShowDropdown b) c).

(** [x == null]. *)
Definition looselyNull (v : ModelValue) : bool :=
  match v with
  | MUndefined | MNull => true
  | _ => false
  end.

(** The state of a freshly set up instance: the refs at their initial values,
    then the transformation of a null value in multiple mode. *)
Definition setup (p : Props) : Component :=
  let c := {| props := p;
              pending := None;
              showDropdown := false;
              inputElementBounds := None;
              windowHeight := None;
              directionCache := None;
              tabTrap := false;
              lastFocusableOutsideElement := None;
              exposedRaw := false;
              effects := [] |} in
  if looselyNull (modelValue p) && multiple p
  then assignLocalValue (MArray []) c
  else c.

(** The getter of the computed [hasDirectionUp]: what an evaluation returns
    in the state [c]. *)
Definition hasDirectionUp (c : Component) : bool :=
  match inputElementBounds c, windowHeight c with
  | Some bounds, Some height =>
      negb (Qle_bool (Bounding.y bounds) (height / 2))
  | _, _ => false
  end.

(** Reading [hasDirectionUp]: the cached value if there is one, an
    evaluation otherwise. *)
Definition readHasDirectionUp (c : Component) : bool :=
  default (hasDirectionUp c) (directionCache c).

(** The template renders.  The panel, which is where [hasDirectionUp] is
    read, is there if [showDropdown] holds; the value read is cached. *)
Definition render (c : Component) : Component :=
  if showDropdown c
  then set_directionCache (Some (readHasDirectionUp c)) c
  else c.

(** Vue marks the computed dirty: a ref its getter had read has changed. *)
Definition invalidate (c : Component) : Component :=
  set_directionCache None c.

(** [useTrapTab(dropdownElement)], a shared composable: the trap is on or off. *)
Definition deactivateTabTrap : Component → Component := set_tabTrap false.
Definition activateTabTrap : Component → Component := set_tabTrap true.

Definition getActiveElement (doc : Document) (c : Component)
  : option HTMLElement :=
  match owner (props c) with
  | Some id =>
      if decide (id = "") then activeElement doc else getElementById doc id
  | None => activeElement doc
  end.

Definition closeDropdown (c : Component) : Component :=
  let c := deactivateTabTrap c in
  let c := writeShowDropdown false c in
  let c := emit Close c in
  let c := if noRefocus (props c) then c else perform NextTickFocus c in
  perform (NextTickTestFlag "common-select.closed") c.

(** The value of [exposedInstance.isOpen]. *)
Definition isOpen (c : Component) : bool := showDropdown c.

(** An element of [getFocusableOptions()] with its [aria-selected]. *)
Record FocusableOption := {
  element : HTMLElement;
  ariaSelected : bool;
}.

Definition moveFocusToDropdown (focusableElements : list FocusableOption)
    (lastOption : bool) (c : Component) : Component :=
  match focusableElements with
  | [] => c
  | first :: _ =>
      let focusElement :=
        if lastOption then List.last focusableElements first
        else default first (List.find ariaSelected focusableElements) in
      activateTabTrap (perform (Focus (element focusElement)) c)
  end.

Definition isCurrentValue (c : Component) (v : Primitive) : bool :=
  match multiple (props c), modelValue (props c) with
  | true, MArray a => bool_decide (v ∈ a)
  | _, m => bool_decide (m = MPrimitive v)
  end.

Definition select (option : SelectOption) (c : Component) : Component :=
  if disabled option then c else
  let c := emit (Select option) c in
  if passive (props c) then
    if negb (multiple (props c)) then closeDropdown c else c
  else
    match multiple (props c), modelValue (props c) with
    | true, MArray a =>
        if bool_decide (value option ∈ a)
        then assignLocalValue (MArray (filter (λ v, v ≠ value option) a)) c
        else pushLocalValue a (value option) c
    | _, m =>
        let c := if bool_decide (m = MPrimitive (value option))
                 then assignLocalValue MUndefined c
                 else assignLocalValue (MPrimitive (value option)) c in
        if negb (multiple (props c)) && negb (noClose (props c))
        then closeDropdown c
        else c
    end.

Definition hasMoreSelectableOptions (c : Component) : bool :=
  bool_decide
    (0 < length (filter (λ option, negb (disabled option)
                                   && negb (isCurrentValue c (value option)))
                        (options (props c)))).

(** [l.forEach((option) => select(option))]. *)
Definition selectEach (l : list SelectOption) (c : Component) : Component :=
  fold_left (λ c option, select option c) l c.

Definition selectAll (c : Component) : Component :=
  selectEach (filter (λ option, negb (disabled option)
                                && negb (isCurrentValue c (value option)))
                     (options (props c))) c.

(** ** The registry of instances *)

(** Modelled from the spec: the registry that [useCommonSelect()] returns
    ([useCommonSelect.ts] and [./types.ts] are not among the sources), "a
    process-wide set of live instances", each with "isOpen: bool".  The
    script uses [instances.value] as a [Set] ([add], [delete], [forEach] in
    insertion order).  The page is every instance set up so far, by handle,
    the handles in the registry, and the journal: the effects of all
    instances in the order they were performed, each with the handle of its
    instance. *)
Record World := {
  heap : list Component;
  instances : list nat;
  journal : list (nat * Effect);
}.

Definition initialWorld : World :=
  {| heap := []; instances := []; journal := [] |}.

(** [Set.prototype.add] and [Set.prototype.delete]. *)
Definition setAdd (i : nat) (s : list nat) : list nat :=
  if decide (i ∈ s) then s else s ++ [i].

Definition setDelete (i : nat) (s : list nat) : list nat :=
  filter (λ j, j ≠ i) s.

(** The truthiness of [instance.isOpen] for an instance taken from the
    registry: the value of the computed, or, when the exposed instance is
    raw, the computed ref itself, which is an object and so always truthy. *)
Definition readsOpen (c : Component) : bool := exposedRaw c || isOpen c.

(** [if (instance.isOpen) instance.closeDropdown()]. *)
Definition closeIfOpen (c : Component) : Component :=
  if readsOpen c then closeDropdown c else c.

(** What a step has added to the log of an instance. *)
Definition newEffects (before after : Component) : list Effect :=
  drop (length (effects before)) (effects after).

(** An instance runs [f]; what it performs goes to the journal. *)
Definition onInstance (i : nat) (f : Component → Component) (w : World)
  : World :=
  {| heap := alter f i (heap w);
     instances := instances w;
     journal :=
       journal w
       ++ match heap w !! i with
          | Some c => (λ e, (i, e)) <$> newEffects c (f c)
          | None => []
          end |}.

(** [l.forEach((instance) => { if (instance.isOpen)
    instance.closeDropdown() })]. *)
Definition closeEach (l : list nat) (w : World) : World :=
  fold_left (λ w j, onInstance j closeIfOpen w) l w.

(** [instances.value.forEach(...)]. *)
Definition closeAll (w : World) : World := closeEach (instances w) w.

(** The part of [openDropdown] after the loop over the instances. *)
Definition showSelf (doc : Document) (c : Component) : Component :=
  let c := writeShowDropdown true c in
  let c := set_lastFocusableOutsideElement (getActiveElement doc c) c in
  let c := perform (ClickOutsideListener (lastFocusableOutsideElement c)) c in
  perform (AnimationFrameTestFlag "common-select.opened") c.

Definition openDropdown (i : nat) (bounds : Bounding.t) (height : Q)
    (doc : Document) (w : World) : World :=
  let w := onInstance i (set_geometry bounds height) w in
  let w := closeAll w in
  onInstance i (showSelf doc) w.

(** Setting up a component registers its exposed instance; unmounting it
    removes the instance from the registry. *)
Definition mount (p : Props) (w : World) : World :=
  {| heap := heap w ++ [setup p];
     instances := setAdd (length (heap w)) (instances w);
     journal :=
       journal w ++ ((λ e, (length (heap w), e)) <$> effects (setup p)) |}.

Definition unmount (i : nat) (w : World) : World :=
  {| heap := heap w;
     instances := setDelete i (instances w);
     journal := journal w |}.

(** What can happen on the page: the parent mounts, unmounts, passes new
    props or renders with the bound value, and its template ref takes hold
    of the exposed instance; the slot, the exposed instance, the Escape key
    and the click-outside listener open and close; the items select; the
    template renders; Vue marks the computed direction dirty. *)
Inductive Action :=
| AMount (p : Props)
| AUnmount (i : nat)
| AProps (i : nat) (p : Props)
| ARerender (i : nat)
| AExposeRef (i : nat)
| AOpen (i : nat) (bounds : Bounding.t) (height : Q) (doc : Document)
| AClose (i : nat)
| AMoveFocus (i : nat) (focusable : list FocusableOption) (lastOption : bool)
| ASelect (i : nat) (o : SelectOption)
| ASelectAll (i : nat)
| ARender (i : nat)
| AInvalidate (i : nat).

Definition act (w : World) (a : Action) : World :=
  match a with
  | AMount p => mount p w
  | AUnmount i => unmount i w
  | AProps i p => onInstance i (set_props p) w
  | ARerender i => onInstance i rerender w
  | AExposeRef i => onInstance i (set_exposedRaw true) w
  | AOpen i bounds height doc => openDropdown i bounds height doc w
  | AClose i => onInstance i closeDropdown w
  | AMoveFocus i focusable lastOption =>
      onInstance i (moveFocusToDropdown focusable lastOption) w
  | ASelect i o => onInstance i (select o) w
  | ASelectAll i => onInstance i selectAll w
  | ARender i => onInstance i render w
  | AInvalidate i => onInstance i invalidate w
  end.

Definition run (actions : list Action) (w : World) : World :=
  fold_left act actions w.

Definition atMostOneOpen (w : World) : Prop :=
  ∀ i j ci cj,
    i ∈ instances w → j ∈ instances w →
    heap w !! i = Some ci → heap w !! j = Some cj →
    isOpen ci = true → isOpen cj = true → i = j.

(** ** Observations *)

(** The props the parent alone decides: everything but the bound value. *)
Definition mode (p : Props)
  : list SelectOption * bool * bool * bool * bool * option string :=
  (options p, passive p, multiple p, noClose p, noRefocus p, owner p).

(** The props and the variables of the script: the state of an instance
    apart from the log of its effects, from what the parent holds and from
    Vue's own records (the cache of the computed, the raw mark). *)
Definition stateOf (c : Component)
  : Props * bool * option Bounding.t * option Q * bool * option HTMLElement :=
  (props c, showDropdown c, inputElementBounds c, windowHeight c, tabTrap c,
   lastFocusableOutsideElement c).

(** The options of the [select] notifications in a log. *)
Definition selectNotifications (l : list Effect) : list SelectOption :=
  omap (λ e, match e with Emitted (Select o) _ => Some o | _ => None end) l.

(** The values of the [update:modelValue] notifications in a log. *)
Definition updateNotifications (l : list Effect) : list ModelValue :=
  omap (λ e, match e with
             | Emitted (UpdateModelValue v) _ => Some v
             | _ => None
             end) l.

(** The entries of a log that change the bound value: the assignments to
    [localValue] and the pushes on the bound array. *)
Definition isMutation (e : Effect) : bool :=
  match e with
  | Emitted (UpdateModelValue _) _ | ArrayPush _ => true
  | _ => false
  end.

Definition mutations (l : list Effect) : list Effect :=
  filter (λ e, isMutation e) l.

(** The effects of one [closeDropdown] in the state [c]. *)
Definition closeEffects (c : Component) : list Effect :=
  SetShowDropdown false
  :: Emitted Close (boundValue c)
  :: (if noRefocus (props c) then [] else [NextTickFocus])
  ++ [NextTickTestFlag "common-select.closed"].

(** What the loop of [openDropdown] over the registry makes the instance [j]
    of the page [w] perform: the effects of one [closeDropdown] if its
    [isOpen] reads as true, nothing otherwise. *)
Definition closingOf (w : World) (j : nat) : list (nat * Effect) :=
  match heap w !! j with
  | Some c => if readsOpen c then (λ e, (j, e)) <$> closeEffects c else []
  | None => []
  end.

(** What the part of [openDropdown] after the loop makes [i] perform. *)
Definition openingOf (doc : Document) (c : Component) (i : nat)
  : list (nat * Effect) :=
  [(i, SetShowDropdown true);
   (i, ClickOutsideListener (getActiveElement doc c));
   (i, AnimationFrameTestFlag "common-select.opened")].

Definition neverOpens (f : Component → Component) : Prop :=
  ∀ c, isOpen (f c) = true → isOpen c = true.

(** The toggle in the words of the specification: append if absent, remove
    if present. *)
Definition toggleMembership (v : Primitive) (a : list Primitive)
  : list Primitive :=
  if bool_decide (v ∈ a) then filter (λ x, x ≠ v) a else a ++ [v].

(** The operations on the selection. *)
Inductive Operation :=
| OSelect (o : SelectOption)
| OSelectAll.

Definition operate (c : Component) (op : Operation) : Component :=
  match op with
  | OSelect o => select o c
  | OSelectAll => selectAll c
  end.

(** ** The style of the panel *)

(** A value of the style object: the number [0], [`${q}px`],
    [`${a + b}px`], [`${a - b}px`] (the sum and the difference are the
    script's, on doubles, and are not carried out here) or
    [`calc(50vh - ${q}px)`].  How a number is printed is not modelled. *)
Inductive CssValue :=
| CssZero
| Px (q : Q)
| PxSum (a b : Q)
| PxDifference (a b : Q)
| Calc50vhMinusPx (q : Q).

(** The style object, by its keys; an absent key is [None]. *)
Module Style.
Record t := {
  top : option CssValue;
  bottom : option CssValue;
  left : option CssValue;
  width : option CssValue;
  maxHeight : option CssValue;
}.
End Style.

(** The getter of the computed [dropdownStyle]: what an evaluation returns
    in the state [c]; it reads [hasDirectionUp], cached or not.  [None] is the
    TypeError of reading [windowHeight.value] with no viewport height
    captured, which no page reaches: the box and the height are captured
    together. *)
Definition dropdownStyle (c : Component) : option Style.t :=
  match inputElementBounds c with
  | None =>
      Some {| Style.top := Some CssZero; Style.bottom := None;
              Style.left := Some CssZero; Style.width := Some CssZero;
              Style.maxHeight := Some CssZero |}
  | Some bounds =>
      if readHasDirectionUp c then
        match windowHeight c with
        | Some height =>
            Some {| Style.top := None;
                    Style.bottom :=
                      Some (PxDifference height (Bounding.top bounds));
                    Style.left := Some (Px (Bounding.left bounds));
                    Style.width := Some (Px (Bounding.width bounds));
                    Style.maxHeight :=
                      Some (Calc50vhMinusPx (Bounding.height bounds)) |}
        | None => None
        end
      else
        Some {| Style.top :=
                  Some (PxSum (Bounding.top bounds) (Bounding.height bounds));
                Style.bottom := None;
                Style.left := Some (Px (Bounding.left bounds));
                Style.width := Some (Px (Bounding.width bounds));
                Style.maxHeight :=
                  Some (Calc50vhMinusPx (Bounding.height bounds)) |}
  end.

(** ** Highlighted labels *)

(** The regex match an option may carry: [match[0]] and [match.index]. *)
Record RegExpMatch := {
  matchedText : JsString;
  matchIndex : nat;
}.

(** [{ ...option, matchedLabel }]. *)
Record MatchedSelectOption := {
  selectOption : SelectOption;
  matchedLabel : JsString;
}.

(** [s.slice(start, end)] and [s.slice(start)], for indices that are not
    negative. *)
Definition slice (s : JsString) (start finish : nat) : JsString :=
  take (finish - start) (drop start s).

Definition sliceFrom (s : JsString) (start : nat) : JsString :=
  drop start s.

Definition highlightClasses (option : SelectOption) : JsString :=
  ofAscii
    (if disabled option
     then "bg-blue-200 dark:bg-gray-300"
     else "bg-blue-600 dark:bg-blue-900 group-hover:bg-blue-800 group-hover:group-focus:bg-blue-600 dark:group-hover:group-focus:bg-blue-900 group-hover:text-white group-focus:text-black dark:group-focus:text-white group-hover:group-focus:text-black dark:group-hover:group-focus:text-white").

(** The code unit of the double quote. *)
Definition doubleQuote : JsString := [34%N].

Definition spanOpen (option : SelectOption) : JsString :=
  ofAscii "<span class=" ++ doubleQuote ++ highlightClasses option
  ++ doubleQuote ++ ofAscii ">".

Definition spanClose : JsString := ofAscii "</span>".

Section Highlight.

(** [i18n.t], [value.toString()] and the [match] field of an option, which
    [SelectOption] above leaves out. *)
Variable translate : JsString → JsString → JsString.
Variable toString : Primitive → JsString.
Variable matchOf : SelectOption → option RegExpMatch.

(** [option.label || i18n.t('%s (unknown)', option.value.toString())]. *)
Definition shownLabel (option : SelectOption) : JsString :=
  if decide (label option = [])
  then translate (ofAscii "%s (unknown)") (toString (value option))
  else label option.

(** The body of the [map] in [highlightedOptions]. *)
Definition highlight (option : SelectOption) : MatchedSelectOption :=
  let label := shownLabel option in
  let label :=
    match matchOf option with
    | Some m =>
        if decide (matchedText m = []) then label else
        let labelBeforeMatch := slice label 0 (matchIndex m) in
        let labelMatchedText :=
          slice label (matchIndex m)
                (matchIndex m + length (matchedText m)) in
        let labelAfterMatch :=
          sliceFrom label (matchIndex m + length (matchedText m)) in
        labelBeforeMatch ++ spanOpen option ++ labelMatchedText
        ++ spanClose ++ labelAfterMatch
    | None => label
    end in
  {| selectOption := option; matchedLabel := label |}.

Definition highlightedOptions (c : Component) : list MatchedSelectOption :=
  map highlight (options (props c)).

End Highlight.

(** ** Refocus *)

(** An instance that has [noRefocus] set and has scheduled no refocus. *)
Definition refocusQuiet (c : Component) : Prop :=
  noRefocus (props c) = true ∧ NextTickFocus ∉ effects c.

(** An action by which the parent does not clear [noRefocus]. *)
Definition keepsNoRefocus (a : Action) : Prop :=
  match a with
  | AMount p | AProps _ p => noRefocus p = true
  | _ => True
  end.

(** ** Sample inputs *)

Definition opt (v : Z) (d : bool) : SelectOption :=
  {| value := PNumber v; label := []; disabled := d |}.

Definition sampleProps (m : ModelValue) (isMultiple isPassive : bool) : Props :=
  {| modelValue := m;
     options := [opt 1 false; opt 2 true; opt 3 false];
     passive := isPassive;
     multiple := isMultiple;
     noClose := false;
     noRefocus := false;
     owner := None |}.

Definition noRefocusProps (m : ModelValue) (isMultiple : bool) : Props :=
  {| modelValue := m;
     options := [opt 1 false; opt 2 true; opt 3 false];
     passive := false;
     multiple := isMultiple;
     noClose := false;
     noRefocus := true;
     owner := Some "trigger" |}.

Definition sampleDocument : Document :=
  {| activeElement := Some 7; getElementById := λ _, None |}.

Definition sampleBounds (y : Q) : Bounding.t :=
  {| Bounding.y := y; Bounding.top := y; Bounding.left := 0;
     Bounding.width := 200; Bounding.height := 36 |}.

(** Two mounted selects, the first of them open. *)
Definition sampleWorld : World :=
  run [AMount (sampleProps MUndefined false false);
       AMount (sampleProps MUndefined true false);
       ARerender 1;
       AOpen 0 (sampleBounds 10) 800%Q sampleDocument;
       ARender 0] initialWorld.

(** The same page when the parent holds template refs on both selects. *)
Definition sampleWorldWithRefs : World :=
  run [AMount (sampleProps MUndefined false false);
       AExposeRef 0;
       AMount (sampleProps MUndefined true false);
       AExposeRef 1;
       ARerender 1;
       AOpen 0 (sampleBounds 10) 800%Q sampleDocument;
       ARender 0] initialWorld.

(** An open multiple select with 1 and 2 selected. *)
Definition multipleSample : Component :=
  set_showDropdown true
    (set_props (sampleProps (MArray [PNumber 1; PNumber 2]) true false)
       (setup (sampleProps MUndefined true false))).

(** An open single select bound to [m]. *)
Definition singleSample (m : ModelValue) : Component :=
  set_showDropdown true (setup (sampleProps m false false)).

(** An open passive select with 1 selected. *)
Definition passiveSample (isMultiple : bool) : Component :=
  set_showDropdown true
    (setup (sampleProps (MArray [PNumber 1]) isMultiple true)).

(** A multiple select right after set-up with [null] and the parent's
    render. *)
Definition freshMultiple : Component :=
  rerender (setup (sampleProps MNull true false)).

(** A trigger at exactly half the height of an 800 pixel window. *)
Definition atHalf : Component :=
  set_geometry (sampleBounds 400) 800 (setup (sampleProps MNull false false)).

Definition sampleFocusable : list FocusableOption :=
  [ {| element := 10; ariaSelected := false |};
    {| element := 11; ariaSelected := true |};
    {| element := 12; ariaSelected := false |} ].

(** Stand-ins for [i18n.t] and [toString] in an example where the label is
    not empty, so that neither is called. *)
Definition sampleTranslate (source arg : JsString) : JsString := source.

Definition sampleToString (v : Primitive) : JsString := [].

(** "Bérlin": the second character is U+00E9, one code unit. *)
Definition berlin : SelectOption :=
  {| value := PNumber 7;
     label := ofAscii "B" ++ [233%N] ++ ofAscii "rlin";
     disabled := false |}.

Definition sampleMatchOf (o : SelectOption) : option RegExpMatch :=
  if decide (o = berlin)
  then Some {| matchedText := ofAscii "rl"; matchIndex := 2 |}
  else None.

(** * Properties *)

(** Unfolds the field updates and reduces the projections. *)
Ltac script_simpl :=
  unfold deactivateTabTrap, activateTabTrap, assignLocalValue, pushLocalValue,
    writeShowDropdown, emit, perform, set_modelValue, set_pending,
    set_showDropdown, set_tabTrap, set_geometry, set_props, set_exposedRaw,
    set_directionCache, set_lastFocusableOutsideElement, withModelValue in *;
  cbv zeta in *;
  cbn [props pending showDropdown inputElementBounds windowHeight
       directionCache tabTrap lastFocusableOutsideElement exposedRaw effects
       modelValue options passive multiple noClose noRefocus owner] in *.

(** ** Closing *)

Lemma closeDropdown_stateOf c :
  stateOf (closeDropdown c)
  = (props c, false, inputElementBounds c, windowHeight c, false,
     lastFocusableOutsideElement c).
Proof. unfold closeDropdown. by destruct (noRefocus _). Qed.

Lemma closeDropdown_closed c : showDropdown (closeDropdown c) = false.
Proof. unfold closeDropdown. by destruct (noRefocus _). Qed.

Lemma closeDropdown_props c : props (closeDropdown c) = props c.
Proof. unfold closeDropdown. by destruct (noRefocus _). Qed.

Lemma closeDropdown_pending c : pending (closeDropdown c) = pending c.
Proof. unfold closeDropdown. by destruct (noRefocus _). Qed.

Lemma closeDropdown_boundValue c : boundValue (closeDropdown c) = boundValue c.
Proof.
  unfold boundValue. by rewrite closeDropdown_props, closeDropdown_pending.
Qed.

Lemma closeDropdown_directionCache c :
  directionCache (closeDropdown c) = directionCache c.
Proof. unfold closeDropdown. by destruct (noRefocus _). Qed.

Lemma closeDropdown_tabTrap c : tabTrap (closeDropdown c) = false.
Proof. unfold closeDropdown. by destruct (noRefocus _). Qed.

Lemma closeDropdown_effects c :
  effects (closeDropdown c) = effects c ++ closeEffects c.
Proof.
  unfold closeDropdown, closeEffects, boundValue. script_simpl.
  destruct (noRefocus (props c)); script_simpl; by rewrite <- ?app_assoc.
Qed.

Lemma closeEffects_ext c c' :
  props c' = props c → pending c' = pending c →
  closeEffects c' = closeEffects c.
Proof. unfold closeEffects, boundValue. by intros -> ->. Qed.

Lemma closeIfOpen_closed c : isOpen (closeIfOpen c) = false.
Proof.
  unfold closeIfOpen, readsOpen.
  destruct (exposedRaw c); simpl; [apply closeDropdown_closed|].
  destruct (isOpen c) eqn:E; [apply closeDropdown_closed|done].
Qed.

Lemma closeIfOpen_props c : props (closeIfOpen c) = props c.
Proof.
  unfold closeIfOpen. destruct (readsOpen c); [|done].
  apply closeDropdown_props.
Qed.

Lemma closeIfOpen_geometry c :
  inputElementBounds (closeIfOpen c) = inputElementBounds c
  ∧ windowHeight (closeIfOpen c) = windowHeight c.
Proof.
  unfold closeIfOpen. destruct (readsOpen c); [|done].
  unfold closeDropdown. by destruct (noRefocus _).
Qed.

Lemma closeIfOpen_directionCache c :
  directionCache (closeIfOpen c) = directionCache c.
Proof.
  unfold closeIfOpen. destruct (readsOpen c); [|done].
  apply closeDropdown_directionCache.
Qed.

(** ** Logs *)

Lemma selectNotifications_app l k :
  selectNotifications (l ++ k) = selectNotifications l ++ selectNotifications k.
Proof. apply omap_app. Qed.

Lemma updateNotifications_app l k :
  updateNotifications (l ++ k) = updateNotifications l ++ updateNotifications k.
Proof. apply omap_app. Qed.

Lemma mutations_app l k : mutations (l ++ k) = mutations l ++ mutations k.
Proof. apply filter_app. Qed.

Lemma closeEffects_quiet c :
  selectNotifications (closeEffects c) = []
  ∧ updateNotifications (closeEffects c) = []
  ∧ mutations (closeEffects c) = [].
Proof. unfold closeEffects. by destruct (noRefocus _). Qed.

Lemma newEffects_app c c' l :
  effects c' = effects c ++ l → newEffects c c' = l.
Proof. intros E. unfold newEffects. by rewrite E, drop_app_length. Qed.

Lemma newEffects_same c c' : effects c' = effects c → newEffects c c' = [].
Proof. intros E. apply newEffects_app. by rewrite app_nil_r. Qed.

Lemma newEffects_closeIfOpen c :
  newEffects c (closeIfOpen c) = if readsOpen c then closeEffects c else [].
Proof.
  unfold closeIfOpen. destruct (readsOpen c).
  - apply newEffects_app, closeDropdown_effects.
  - by apply newEffects_same.
Qed.

Lemma showSelf_effects doc c :
  effects (showSelf doc c)
  = effects c ++ [SetShowDropdown true;
                  ClickOutsideListener (getActiveElement doc c);
                  AnimationFrameTestFlag "common-select.opened"].
Proof.
  unfold showSelf. script_simpl. by rewrite <- !app_assoc.
Qed.

(** ** The loop over the registry *)

Lemma onInstance_lookup_eq i f w :
  heap (onInstance i f w) !! i = f <$> heap w !! i.
Proof. apply list_lookup_alter_eq. Qed.

Lemma onInstance_lookup_ne i j f w :
  i ≠ j → heap (onInstance i f w) !! j = heap w !! j.
Proof. intros Hne. by apply list_lookup_alter_ne. Qed.

Lemma onInstance_quiet i f w :
  (∀ c, effects (f c) = effects c) →
  journal (onInstance i f w) = journal w.
Proof.
  intros Hf. unfold onInstance; simpl.
  destruct (heap w !! i) as [c|]; [|by rewrite app_nil_r].
  by rewrite newEffects_same, app_nil_r.
Qed.

Lemma closingOf_ext w w' j :
  heap w' !! j = heap w !! j → closingOf w' j = closingOf w j.
Proof. unfold closingOf. by intros ->. Qed.

Lemma closeEach_spec l w :
  NoDup l →
  instances (closeEach l w) = instances w
  ∧ (∀ j, heap (closeEach l w) !! j
          = if decide (j ∈ l) then closeIfOpen <$> heap w !! j
            else heap w !! j)
  ∧ journal (closeEach l w) = journal w ++ mjoin (closingOf w <$> l).
Proof.
  unfold closeEach. revert w.
  induction l as [|a l IH]; intros w Hnd; simpl.
  - by rewrite app_nil_r.
  - apply NoDup_cons in Hnd as [Hnin Hnd].
    destruct (IH (onInstance a closeIfOpen w) Hnd) as (Hi & Hh & Hj).
    split; [by rewrite Hi|]. split.
    + intros j. rewrite Hh. destruct (decide (a = j)) as [->|Hne].
      * rewrite decide_False by done.
        rewrite decide_True by left. apply onInstance_lookup_eq.
      * rewrite onInstance_lookup_ne by done.
        destruct (decide (j ∈ l)) as [Hin|Hout].
        -- by rewrite decide_True by (by right).
        -- rewrite decide_False; [done|].
           rewrite elem_of_cons. by intros [?|?].
    + rewrite Hj. cbn [journal onInstance].
      rewrite <- app_assoc. f_equal. f_equal.
      * unfold closingOf. destruct (heap w !! a) as [c|]; [|done].
        rewrite newEffects_closeIfOpen. by destruct (readsOpen c).
      * f_equal. apply list_fmap_ext. intros k j Hk.
        apply closingOf_ext, onInstance_lookup_ne.
        intros ->. apply Hnin. by eapply list_elem_of_lookup_2.
Qed.

(** Without the assumption that the registry lists no instance twice: an
    instance has run [closeIfOpen] once for each time it is listed. *)
Lemma closeEach_lookup l w j :
  ∃ n, heap (closeEach l w) !! j = Nat.iter n closeIfOpen <$> heap w !! j
       ∧ (j ∈ l → 0 < n) ∧ (j ∉ l → n = 0).
Proof.
  unfold closeEach. revert w.
  induction l as [|a l IH]; intros w; simpl.
  - exists 0. split; [by destruct (heap w !! j)|].
    split; [by intros ?%elem_of_nil|done].
  - destruct (IH (onInstance a closeIfOpen w)) as (n & Hn & Hin & Hout).
    destruct (decide (a = j)) as [->|Hne].
    + exists (S n). rewrite Hn, onInstance_lookup_eq.
      split; [|split; [lia|]].
      * destruct (heap w !! j) as [c|]; [|done]. simpl. f_equal.
        exact (eq_sym (Nat.iter_succ_r n closeIfOpen c)).
      * intros Hnin. destruct Hnin. left.
    + exists n. rewrite Hn, onInstance_lookup_ne by done.
      split; [done|]. rewrite elem_of_cons.
      split; [intros [?|?]; [congruence|auto]|intros Hx; apply Hout; tauto].
Qed.

Lemma onInstance_length i f w :
  length (heap (onInstance i f w)) = length (heap w).
Proof. apply length_alter. Qed.

Lemma closeEach_length l w : length (heap (closeEach l w)) = length (heap w).
Proof.
  unfold closeEach. revert w.
  induction l as [|a l IH]; intros w; simpl; [done|].
  rewrite IH. apply length_alter.
Qed.

Lemma iter_closeIfOpen_frame n c :
  props (Nat.iter n closeIfOpen c) = props c
  ∧ pending (Nat.iter n closeIfOpen c) = pending c
  ∧ inputElementBounds (Nat.iter n closeIfOpen c) = inputElementBounds c
  ∧ windowHeight (Nat.iter n closeIfOpen c) = windowHeight c
  ∧ directionCache (Nat.iter n closeIfOpen c) = directionCache c.
Proof.
  induction n as [|n IH]; [done|]. simpl.
  destruct IH as (<- & <- & <- & <- & <-).
  generalize (Nat.iter n closeIfOpen c). intros x.
  destruct (closeIfOpen_geometry x) as [-> ->].
  rewrite closeIfOpen_props, closeIfOpen_directionCache.
  repeat split. unfold closeIfOpen. destruct (readsOpen x); [|done].
  apply closeDropdown_pending.
Qed.

Lemma iter_closeIfOpen_closed n c :
  0 < n → isOpen (Nat.iter n closeIfOpen c) = false.
Proof.
  destruct n as [|n]; [lia|]. intros _. simpl. apply closeIfOpen_closed.
Qed.

Lemma openDropdown_lookup_self_iter i bounds height doc w :
  ∃ n, heap (openDropdown i bounds height doc w) !! i
       = (λ c, showSelf doc
                 (Nat.iter n closeIfOpen (set_geometry bounds height c)))
         <$> heap w !! i.
Proof.
  unfold openDropdown, closeAll. cbv zeta.
  change (instances (onInstance i (set_geometry bounds height) w))
    with (instances w).
  destruct (closeEach_lookup (instances w)
              (onInstance i (set_geometry bounds height) w) i)
    as (n & Hn & _).
  exists n. rewrite onInstance_lookup_eq, Hn, onInstance_lookup_eq.
  by destruct (heap w !! i).
Qed.

Lemma openDropdown_lookup_other_iter i j bounds height doc w :
  j ≠ i →
  ∃ n, heap (openDropdown i bounds height doc w) !! j
       = Nat.iter n closeIfOpen <$> heap w !! j
       ∧ (j ∈ instances w → 0 < n) ∧ (j ∉ instances w → n = 0).
Proof.
  intros Hne. unfold openDropdown, closeAll. cbv zeta.
  change (instances (onInstance i (set_geometry bounds height) w))
    with (instances w).
  destruct (closeEach_lookup (instances w)
              (onInstance i (set_geometry bounds height) w) j)
    as (n & Hn & Hin & Hout).
  exists n. rewrite onInstance_lookup_ne, Hn, onInstance_lookup_ne by done.
  done.
Qed.

Lemma closeEach_instances l w : instances (closeEach l w) = instances w.
Proof.
  unfold closeEach. revert w.
  induction l as [|a l IH]; intros w; simpl; [done|]. by rewrite IH.
Qed.

Lemma openDropdown_instances i bounds height doc w :
  instances (openDropdown i bounds height doc w) = instances w.
Proof.
  unfold openDropdown, closeAll. cbn [instances onInstance].
  by rewrite closeEach_instances.
Qed.

Lemma openDropdown_lookup_self i bounds height doc w :
  NoDup (instances w) →
  heap (openDropdown i bounds height doc w) !! i
  = (λ c, showSelf doc
            ((if decide (i ∈ instances w) then closeIfOpen else id)
               (set_geometry bounds height c))) <$> heap w !! i.
Proof.
  intros Hnd. unfold openDropdown, closeAll. cbv zeta.
  rewrite onInstance_lookup_eq.
  destruct (closeEach_spec (instances w)
              (onInstance i (set_geometry bounds height) w) Hnd)
    as (_ & Hh & _).
  change (instances (onInstance i (set_geometry bounds height) w))
    with (instances w).
  rewrite Hh, onInstance_lookup_eq.
  case_decide; by destruct (heap w !! i).
Qed.

Lemma openDropdown_lookup_other i j bounds height doc w :
  NoDup (instances w) → j ≠ i →
  heap (openDropdown i bounds height doc w) !! j
  = if decide (j ∈ instances w) then closeIfOpen <$> heap w !! j
    else heap w !! j.
Proof.
  intros Hnd Hne. unfold openDropdown, closeAll. cbv zeta.
  rewrite onInstance_lookup_ne by done.
  destruct (closeEach_spec (instances w)
              (onInstance i (set_geometry bounds height) w) Hnd)
    as (_ & Hh & _).
  change (instances (onInstance i (set_geometry bounds height) w))
    with (instances w).
  rewrite Hh.
  by rewrite onInstance_lookup_ne by done.
Qed.

Lemma openDropdown_journal i bounds height doc w c :
  NoDup (instances w) → heap w !! i = Some c →
  journal (openDropdown i bounds height doc w)
  = journal w ++ mjoin (closingOf w <$> instances w) ++ openingOf doc c i.
Proof.
  intros Hnd Hc.
  pose proof (openDropdown_lookup_self i bounds height doc w Hnd) as Hself.
  unfold openDropdown, closeAll in *. cbv zeta in *.
  set (w0 := onInstance i (set_geometry bounds height) w) in *.
  destruct (closeEach_spec (instances w) w0 Hnd) as (_ & Hh & Hj).
  change (instances w0) with (instances w) in *.
  unfold onInstance at 1. cbn [journal]. rewrite Hj.
  assert (Hq : journal w0 = journal w) by (by apply onInstance_quiet).
  rewrite Hq, <- app_assoc. f_equal. f_equal.
  - f_equal. apply list_fmap_ext. intros k j Hk. unfold closingOf.
    subst w0. destruct (decide (i = j)) as [->|Hne].
    + rewrite onInstance_lookup_eq. by destruct (heap w !! j).
    + by rewrite onInstance_lookup_ne.
  - rewrite Hh. subst w0. rewrite onInstance_lookup_eq, Hc. simpl.
    assert (Hx : ∀ x, props x = props c →
              (λ e, (i, e)) <$> newEffects x (showSelf doc x)
              = openingOf doc c i).
    { intros x Hx. rewrite (newEffects_app _ _ _ (showSelf_effects doc x)).
      unfold openingOf, getActiveElement. by rewrite Hx. }
    case_decide; simpl; apply Hx; by rewrite ?closeIfOpen_props.
Qed.

Lemma showSelf_open doc c : isOpen (showSelf doc c) = true.
Proof. done. Qed.

(** ** The cases of [select] *)

Lemma select_cases o c :
  disabled o = true
  ∨ (disabled o = false ∧ passive (props c) = true)
  ∨ (disabled o = false ∧ passive (props c) = false
     ∧ multiple (props c) = true ∧ ∃ a, modelValue (props c) = MArray a)
  ∨ (disabled o = false ∧ passive (props c) = false
     ∧ (multiple (props c) = true → ∀ a, modelValue (props c) ≠ MArray a)).
Proof.
  destruct (disabled o); [by left|right].
  destruct (passive (props c)); [by left|right].
  destruct (multiple (props c)); [|by right].
  destruct (modelValue (props c)) as [| |p|a] eqn:Ev.
  4: { left. repeat split. by exists a. }
  all: by right.
Qed.

Lemma select_disabled o c : disabled o = true → select o c = c.
Proof. unfold select. by intros ->. Qed.

Lemma select_passive o c :
  disabled o = false → passive (props c) = true →
  select o c = if multiple (props c) then emit (Select o) c
               else closeDropdown (emit (Select o) c).
Proof.
  unfold select. intros -> Hp. script_simpl. rewrite Hp.
  by destruct (multiple (props c)).
Qed.

Lemma select_multiple_array o c a :
  disabled o = false → passive (props c) = false →
  multiple (props c) = true → modelValue (props c) = MArray a →
  select o c
  = if bool_decide (value o ∈ a)
    then assignLocalValue (MArray (filter (λ v, v ≠ value o) a))
           (emit (Select o) c)
    else pushLocalValue a (value o) (emit (Select o) c).
Proof.
  unfold select. intros -> Hp Hm Hv. script_simpl. by rewrite Hp, Hm, Hv.
Qed.

(** The path taken unless the mode is multiple and [props.modelValue] an
    array. *)
Lemma select_scalar o c :
  disabled o = false → passive (props c) = false →
  (multiple (props c) = true → ∀ a, modelValue (props c) ≠ MArray a) →
  select o c
  = let c' := assignLocalValue
                (if bool_decide (modelValue (props c) = MPrimitive (value o))
                 then MUndefined else MPrimitive (value o))
                (emit (Select o) c) in
    if negb (multiple (props c)) && negb (noClose (props c))
    then closeDropdown c' else c'.
Proof.
  unfold select. intros -> Hp Hm. script_simpl. rewrite Hp.
  destruct (multiple (props c)) eqn:Em, (modelValue (props c)) eqn:Ev;
    try (by destruct (Hm eq_refl a));
    case_bool_decide; script_simpl; rewrite ?Em, ?Ev; reflexivity.
Qed.

Lemma select_single o c :
  disabled o = false → passive (props c) = false →
  multiple (props c) = false →
  select o c
  = let c' := assignLocalValue
                (if bool_decide (modelValue (props c) = MPrimitive (value o))
                 then MUndefined else MPrimitive (value o))
                (emit (Select o) c) in
    if noClose (props c) then c' else closeDropdown c'.
Proof.
  intros Hd Hp Hm. rewrite select_scalar by (done || congruence).
  rewrite Hm. cbn [negb andb]. by destruct (noClose (props c)).
Qed.

Lemma select_mode o c : mode (props (select o c)) = mode (props c).
Proof.
  destruct (select_cases o c)
    as [Hd|[[Hd Hp]|[(Hd & Hp & Hm & a & Ha)|(Hd & Hp & Hm)]]].
  - by rewrite select_disabled.
  - rewrite select_passive by done.
    destruct (multiple (props c)); by rewrite ?closeDropdown_props.
  - rewrite (select_multiple_array o c a) by done.
    by case_bool_decide.
  - rewrite select_scalar by done. cbv zeta.
    destruct (_ && _); by rewrite ?closeDropdown_props.
Qed.

Lemma mode_multiple p q : mode p = mode q → multiple p = multiple q.
Proof. unfold mode. congruence. Qed.

Lemma mode_passive p q : mode p = mode q → passive p = passive q.
Proof. unfold mode. congruence. Qed.

Lemma mode_options p q : mode p = mode q → options p = options q.
Proof. unfold mode. congruence. Qed.

Lemma mode_noRefocus p q : mode p = mode q → noRefocus p = noRefocus q.
Proof. unfold mode. congruence. Qed.

Lemma select_showDropdown o c :
  showDropdown (select o c) = showDropdown c ∨ showDropdown (select o c) = false.
Proof.
  destruct (select_cases o c)
    as [Hd|[[Hd Hp]|[(Hd & Hp & Hm & a & Ha)|(Hd & Hp & Hm)]]].
  - left. by rewrite select_disabled.
  - rewrite select_passive by done. destruct (multiple (props c)).
    + by left.
    + right. apply closeDropdown_closed.
  - left. rewrite (select_multiple_array o c a) by done. by case_bool_decide.
  - rewrite select_scalar by done. cbv zeta. destruct (_ && _).
    + right. apply closeDropdown_closed.
    + by left.
Qed.

(** Every [select] of an enabled option starts by emitting [select], whose
    handler finds the bound value as it was at the call; what follows emits
    no further [select], and assigns or pushes exactly when the mode is not
    passive. *)
Lemma select_effects o c :
  ∃ rest,
    effects (select o c)
    = effects c ++ (if disabled o then []
                    else Emitted (Select o) (boundValue c) :: rest)
    ∧ selectNotifications rest = []
    ∧ (passive (props c) = true → mutations rest = [])
    ∧ (disabled o = false → passive (props c) = false → mutations rest ≠ []).
Proof.
  assert (Hnil : mutations [] ≠ [] → False) by (by intros []).
  destruct (select_cases o c)
    as [Hd|[[Hd Hp]|[(Hd & Hp & Hm & a & Ha)|(Hd & Hp & Hm)]]]; rewrite Hd.
  - exists []. rewrite select_disabled by done.
    rewrite app_nil_r. repeat split; intros; congruence || by cbn.
  - rewrite select_passive by done. destruct (multiple (props c)).
    + exists []. repeat split; intros; congruence || by cbn.
    + exists (closeEffects c).
      rewrite closeDropdown_effects.
      rewrite (closeEffects_ext c (emit (Select o) c)) by done.
      script_simpl. rewrite <- app_assoc.
      destruct (closeEffects_quiet c) as (? & _ & ?).
      repeat split; intros; congruence || by cbn.
  - rewrite (select_multiple_array o c a) by done.
    case_bool_decide; script_simpl; eexists [_]; rewrite <- app_assoc;
      repeat split; intros; congruence || by cbn.
  - rewrite select_scalar by done. cbv zeta.
    destruct (_ && _).
    + rewrite closeDropdown_effects. script_simpl.
      match goal with
      | |- context [closeEffects ?x] =>
          destruct (closeEffects_quiet x) as (? & _ & ?)
      end.
      eexists (_ :: closeEffects _). rewrite <- !app_assoc.
      repeat split; intros; congruence || by cbn.
    + script_simpl. eexists [_]. rewrite <- app_assoc.
      repeat split; intros; congruence || by cbn.
Qed.

Lemma select_notifications o c :
  selectNotifications (effects (select o c))
  = selectNotifications (effects c) ++ (if disabled o then [] else [o]).
Proof.
  destruct (select_effects o c) as (rest & -> & Hr & _).
  rewrite selectNotifications_app. f_equal.
  destruct (disabled o); [done|]. simpl. fold (selectNotifications rest).
  by rewrite Hr.
Qed.

(** ** Operations that never open a closed overlay *)

Create HintDb never_opens.

Lemma select_neverOpens o : neverOpens (select o).
Proof.
  intros c H. destruct (select_showDropdown o c) as [E|E];
    unfold isOpen in *; congruence.
Qed.

Lemma selectEach_neverOpens l : neverOpens (selectEach l).
Proof.
  unfold selectEach.
  induction l as [|o l IH]; intros c; simpl; [done|].
  intros H. by apply (select_neverOpens o), IH.
Qed.

Lemma selectAll_neverOpens : neverOpens selectAll.
Proof. intros c. apply selectEach_neverOpens. Qed.

Lemma closeDropdown_neverOpens : neverOpens closeDropdown.
Proof. intros c. unfold isOpen. by rewrite closeDropdown_closed. Qed.

Lemma moveFocusToDropdown_neverOpens focusable lastOption :
  neverOpens (moveFocusToDropdown focusable lastOption).
Proof. intros c. by destruct focusable. Qed.

Lemma set_props_neverOpens p : neverOpens (set_props p).
Proof. by intros c. Qed.

Lemma rerender_neverOpens : neverOpens rerender.
Proof. by intros c. Qed.

Lemma set_exposedRaw_neverOpens b : neverOpens (set_exposedRaw b).
Proof. by intros c. Qed.

Lemma render_neverOpens : neverOpens render.
Proof. intros c. unfold render. by destruct (showDropdown c). Qed.

Lemma invalidate_neverOpens : neverOpens invalidate.
Proof. by intros c. Qed.

#[local] Hint Resolve select_neverOpens selectAll_neverOpens
  closeDropdown_neverOpens moveFocusToDropdown_neverOpens
  set_props_neverOpens rerender_neverOpens set_exposedRaw_neverOpens
  render_neverOpens invalidate_neverOpens : never_opens.

(** ** The invariants of the registry *)

Lemma setup_closed p : isOpen (setup p) = false.
Proof. unfold setup. by destruct (_ && _). Qed.

Lemma initialWorld_atMostOneOpen : atMostOneOpen initialWorld.
Proof. intros i j ci cj Hi. by apply elem_of_nil in Hi. Qed.

Lemma onInstance_atMostOneOpen i f w :
  neverOpens f → atMostOneOpen w → atMostOneOpen (onInstance i f w).
Proof.
  intros Hf Hw i1 i2 c1 c2 Hi1 Hi2 H1 H2 O1 O2. simpl in *.
  assert (Hpre : ∀ k ck, alter f i (heap w) !! k = Some ck → isOpen ck = true →
                 ∃ ck', heap w !! k = Some ck' ∧ isOpen ck' = true).
  { intros k ck Hk Ok. destruct (decide (i = k)) as [->|Hne].
    - rewrite list_lookup_alter_eq in Hk.
      destruct (heap w !! k) as [c|]; simplify_eq/=. eauto.
    - rewrite list_lookup_alter_ne in Hk by done. eauto. }
  destruct (Hpre _ _ H1 O1) as (c1' & ? & ?).
  destruct (Hpre _ _ H2 O2) as (c2' & ? & ?).
  by eapply Hw.
Qed.

Lemma mount_atMostOneOpen p w : atMostOneOpen w → atMostOneOpen (mount p w).
Proof.
  intros Hw i1 i2 c1 c2 Hi1 Hi2 H1 H2 O1 O2. simpl in *.
  assert (Hpre : ∀ k ck, k ∈ setAdd (length (heap w)) (instances w) →
                 (heap w ++ [setup p]) !! k = Some ck → isOpen ck = true →
                 k ∈ instances w ∧ heap w !! k = Some ck).
  { intros k ck Hk Hl Ok.
    destruct (decide (k < length (heap w))) as [Hlt|Hge].
    - rewrite lookup_app_l in Hl by done. split; [|done].
      unfold setAdd in Hk. case_decide; [done|].
      apply elem_of_app in Hk as [?|Hk]; [done|].
      apply list_elem_of_singleton in Hk. lia.
    - rewrite lookup_app_r in Hl by lia.
      destruct (k - length (heap w)) as [|n]; simplify_eq/=.
      by rewrite setup_closed in Ok. }
  destruct (Hpre _ _ Hi1 H1 O1). destruct (Hpre _ _ Hi2 H2 O2).
  by eapply Hw.
Qed.

Lemma unmount_atMostOneOpen i w : atMostOneOpen w → atMostOneOpen (unmount i w).
Proof.
  intros Hw i1 i2 c1 c2 Hi1 Hi2 H1 H2 O1 O2. simpl in *.
  unfold setDelete in *.
  apply list_elem_of_filter in Hi1 as [_ ?], Hi2 as [_ ?].
  by eapply Hw.
Qed.

Lemma openDropdown_atMostOneOpen i bounds height doc w :
  atMostOneOpen (openDropdown i bounds height doc w).
Proof.
  assert (Hother : ∀ k ck, k ∈ instances w →
            heap (openDropdown i bounds height doc w) !! k = Some ck →
            isOpen ck = true → k = i).
  { intros k ck Hk Hl Ok. destruct (decide (k = i)) as [|Hne]; [done|].
    destruct (openDropdown_lookup_other_iter i k bounds height doc w Hne)
      as (n & Hn & Hpos & _).
    rewrite Hn in Hl.
    destruct (heap w !! k) as [c|]; simplify_eq/=.
    rewrite iter_closeIfOpen_closed in Ok by auto. done. }
  intros i1 i2 c1 c2 Hi1 Hi2 H1 H2 O1 O2.
  rewrite openDropdown_instances in Hi1, Hi2.
  rewrite (Hother _ _ Hi1 H1 O1). by rewrite (Hother _ _ Hi2 H2 O2).
Qed.

Lemma setAdd_NoDup i s : NoDup s → NoDup (setAdd i s).
Proof.
  intros Hs. unfold setAdd. case_decide; [done|].
  apply NoDup_app. split; [done|]. split; [|apply NoDup_singleton].
  intros x Hx Hx'. apply list_elem_of_singleton in Hx'. by subst.
Qed.

Lemma act_NoDup a w : NoDup (instances w) → NoDup (instances (act w a)).
Proof.
  destruct a; cbn [act]; intros Hw; try done.
  - by apply setAdd_NoDup.
  - by apply NoDup_filter.
  - by rewrite openDropdown_instances.
Qed.

Lemma run_NoDup actions w :
  NoDup (instances w) → NoDup (instances (run actions w)).
Proof.
  unfold run. revert w. induction actions as [|a l IH]; intros w Hw; simpl.
  - done.
  - by apply IH, act_NoDup.
Qed.

Lemma act_atMostOneOpen a w : atMostOneOpen w → atMostOneOpen (act w a).
Proof.
  destruct a; cbn [act]; intros Hw;
    auto using mount_atMostOneOpen, unmount_atMostOneOpen,
      openDropdown_atMostOneOpen, onInstance_atMostOneOpen with never_opens.
Qed.

Lemma run_atMostOneOpen actions w :
  atMostOneOpen w → atMostOneOpen (run actions w).
Proof.
  unfold run. revert w. induction actions as [|a l IH]; intros w Hw; simpl.
  - done.
  - by apply IH, act_atMostOneOpen.
Qed.

(** ** The toggle *)

Lemma toggleMembership_elem_of v a x :
  x ∈ toggleMembership v a ↔ (if decide (x = v) then v ∉ a else x ∈ a).
Proof.
  unfold toggleMembership. case_bool_decide as Hin.
  - rewrite list_elem_of_filter. case_decide; subst; intuition congruence.
  - rewrite elem_of_app, list_elem_of_singleton.
    case_decide; subst; intuition congruence.
Qed.

Lemma toggleMembership_absent v a : v ∉ a → toggleMembership v a = a ++ [v].
Proof. intros H. unfold toggleMembership. by rewrite bool_decide_false. Qed.

Lemma toggleMembership_present v a :
  v ∈ a → toggleMembership v a = filter (λ x, x ≠ v) a.
Proof. intros H. unfold toggleMembership. by rewrite bool_decide_true. Qed.

Lemma filter_absent (v : Primitive) (a : list Primitive) :
  v ∉ a → filter (λ x, x ≠ v) a = a.
Proof.
  induction a as [|y a IH]; intros Hnin; [done|].
  apply not_elem_of_cons in Hnin as [? ?].
  rewrite filter_cons_True by done. f_equal. by apply IH.
Qed.

Lemma toggleMembership_twice v a :
  (∀ x, x ∈ toggleMembership v (toggleMembership v a) ↔ x ∈ a)
  ∧ (v ∉ a → toggleMembership v (toggleMembership v a) = a)
  ∧ (v ∈ a →
     toggleMembership v (toggleMembership v a) = filter (λ x, x ≠ v) a ++ [v]).
Proof.
  split; [|split].
  - intros x. rewrite toggleMembership_elem_of.
    destruct (decide (x = v)) as [->|Hne].
    + rewrite toggleMembership_elem_of, decide_True by done.
      split; [apply dec_stable|tauto].
    + by rewrite toggleMembership_elem_of, decide_False.
  - intros Hnin. rewrite (toggleMembership_absent v a) by done.
    rewrite toggleMembership_present
      by (rewrite elem_of_app, list_elem_of_singleton; auto).
    rewrite filter_app, filter_cons_False, filter_nil, app_nil_r by tauto.
    by apply filter_absent.
  - intros Hin. rewrite (toggleMembership_present v a) by done.
    apply toggleMembership_absent. rewrite list_elem_of_filter. tauto.
Qed.

(** ** What [select] does to the props and to the bound value *)

(** In multiple mode only a push changes what the props show. *)
Lemma select_multiple_modelValue o c a :
  disabled o = false → passive (props c) = false →
  multiple (props c) = true → modelValue (props c) = MArray a →
  modelValue (props (select o c))
  = MArray (if bool_decide (value o ∈ a) then a else a ++ [value o])
  ∧ pending (select o c)
    = (if bool_decide (value o ∈ a)
       then Some (MArray (filter (λ x, x ≠ value o) a)) else pending c).
Proof.
  intros Hd Hp Hm Ha. rewrite (select_multiple_array o c a) by done.
  case_bool_decide; script_simpl; by rewrite ?Ha.
Qed.

Lemma select_multiple_boundValue o c a :
  disabled o = false → passive (props c) = false →
  multiple (props c) = true → modelValue (props c) = MArray a →
  pending c = None →
  boundValue (select o c) = MArray (toggleMembership (value o) a).
Proof.
  intros Hd Hp Hm Ha Hn.
  destruct (select_multiple_modelValue o c a Hd Hp Hm Ha) as [Hv Hq].
  unfold boundValue, toggleMembership. rewrite Hv, Hq, Hn.
  by case_bool_decide.
Qed.

Lemma rerender_props c :
  modelValue (props (rerender c)) = boundValue c
  ∧ mode (props (rerender c)) = mode (props c)
  ∧ pending (rerender c) = None.
Proof. done. Qed.

Lemma rerender_boundValue c : boundValue (rerender c) = boundValue c.
Proof. done. Qed.

Lemma rerender_idle c : pending c = None → props (rerender c) = props c.
Proof.
  intros Hn. unfold rerender, boundValue. rewrite Hn. script_simpl.
  by destruct (props c).
Qed.

(** ** Sequences of [select] *)

Lemma selectEach_mode l c : mode (props (selectEach l c)) = mode (props c).
Proof.
  unfold selectEach. revert c. induction l as [|o l IH]; intros c; simpl.
  - done.
  - by rewrite IH, select_mode.
Qed.

Lemma selectAll_mode c : mode (props (selectAll c)) = mode (props c).
Proof. apply selectEach_mode. Qed.

Lemma select_keeps_array o c a :
  multiple (props c) = true → modelValue (props c) = MArray a →
  ∃ a', modelValue (props (select o c)) = MArray a'.
Proof.
  intros Hm Ha.
  destruct (select_cases o c)
    as [Hd|[[Hd Hp]|[(Hd & Hp & _)|(Hd & Hp & Hn)]]].
  - rewrite select_disabled by done. eauto.
  - rewrite select_passive, Hm by done. eauto.
  - rewrite (proj1 (select_multiple_modelValue o c a Hd Hp Hm Ha)). eauto.
  - by destruct (Hn Hm a).
Qed.

Lemma selectEach_keeps_array l c a :
  multiple (props c) = true → modelValue (props c) = MArray a →
  ∃ a', modelValue (props (selectEach l c)) = MArray a'.
Proof.
  unfold selectEach. revert c a.
  induction l as [|o l IH]; intros c a Hm Ha; simpl; [eauto|].
  destruct (select_keeps_array o c a Hm Ha) as [a' Ha'].
  apply (IH _ a'); [|done].
  by rewrite (mode_multiple _ _ (select_mode o c)).
Qed.

(** In multiple mode, with arrays in the props and at the parent, the parent
    holds an array after [select]. *)
Lemma select_keeps_bound_array o c a b :
  multiple (props c) = true → modelValue (props c) = MArray a →
  boundValue c = MArray b →
  ∃ b', boundValue (select o c) = MArray b'.
Proof.
  intros Hm Ha Hb.
  destruct (select_cases o c)
    as [Hd|[[Hd Hp]|[(Hd & Hp & _)|(Hd & Hp & Hn)]]].
  - rewrite select_disabled by done. eauto.
  - rewrite select_passive, Hm by done. eauto.
  - destruct (select_multiple_modelValue o c a Hd Hp Hm Ha) as [Hv Hq].
    unfold boundValue in *. rewrite Hv, Hq.
    case_bool_decide; [simpl; eauto|].
    destruct (pending c); simpl in *; eauto.
  - by destruct (Hn Hm a).
Qed.

Lemma selectEach_keeps_bound_array l c a b :
  multiple (props c) = true → modelValue (props c) = MArray a →
  boundValue c = MArray b →
  ∃ b', boundValue (selectEach l c) = MArray b'.
Proof.
  unfold selectEach. revert c a b.
  induction l as [|o l IH]; intros c a b Hm Ha Hb; simpl; [eauto|].
  destruct (select_keeps_array o c a Hm Ha) as [a' Ha'].
  destruct (select_keeps_bound_array o c a b Hm Ha Hb) as [b' Hb'].
  apply (IH _ a' b'); [|done|done].
  by rewrite (mode_multiple _ _ (select_mode o c)).
Qed.

Lemma selectEach_notifications l c :
  Forall (λ o, disabled o = false) l →
  selectNotifications (effects (selectEach l c))
  = selectNotifications (effects c) ++ l.
Proof.
  unfold selectEach. revert c.
  induction l as [|o l IH]; intros c Hl; simpl.
  - by rewrite app_nil_r.
  - apply Forall_cons in Hl as [Ho Hl].
    rewrite IH, select_notifications, Ho, <- app_assoc by done. done.
Qed.

(** Enabled options of distinct values, none of them in the array of the
    props, are pushed on it one after the other; nothing is assigned. *)
Lemma selectEach_appends l c a :
  passive (props c) = false → multiple (props c) = true →
  modelValue (props c) = MArray a →
  Forall (λ o, disabled o = false) l →
  NoDup (value <$> l) → (∀ o, o ∈ l → value o ∉ a) →
  modelValue (props (selectEach l c)) = MArray (a ++ (value <$> l))
  ∧ pending (selectEach l c) = pending c.
Proof.
  unfold selectEach. revert c a.
  induction l as [|o l IH]; intros c a Hp Hm Ha Hl Hnd Hfresh; simpl.
  - by rewrite app_nil_r.
  - apply Forall_cons in Hl as [Ho Hl].
    apply NoDup_cons in Hnd as [Hnin Hnd].
    assert (Hstep : modelValue (props (select o c)) = MArray (a ++ [value o])
                    ∧ pending (select o c) = pending c).
    { destruct (select_multiple_modelValue o c a Ho Hp Hm Ha) as [Hv Hq].
      rewrite Hv, Hq. rewrite bool_decide_false; [done|].
      apply Hfresh. left. }
    destruct Hstep as [Hv Hq].
    destruct (IH (select o c) (a ++ [value o])) as [Hv' Hq']; try done.
    + by rewrite (mode_passive _ _ (select_mode o c)).
    + by rewrite (mode_multiple _ _ (select_mode o c)).
    + intros o' Ho'. rewrite elem_of_app, list_elem_of_singleton.
      intros [Hin|Heq].
      * apply (Hfresh o'); [by right|done].
      * apply Hnin. rewrite <- Heq. by apply list_elem_of_fmap_2.
    + rewrite Hv', Hq', Hq. by rewrite <- app_assoc.
Qed.

(** ** Placement *)

Lemma hasDirectionUp_true c bounds height :
  inputElementBounds c = Some bounds → windowHeight c = Some height →
  hasDirectionUp c = true ↔ (height / 2 < Bounding.y bounds)%Q.
Proof.
  intros Hb Hh. unfold hasDirectionUp. rewrite Hb, Hh.
  rewrite negb_true_iff, <- not_true_iff_false, Qle_bool_iff.
  split; [apply Qnot_le_lt|apply Qlt_not_le].
Qed.

Lemma closingOf_elem_of w l je :
  je ∈ mjoin (closingOf w <$> l) →
  ∃ c e, je = (je.1, e) ∧ je.1 ∈ l ∧ heap w !! je.1 = Some c
         ∧ readsOpen c = true ∧ e ∈ closeEffects c.
Proof.
  rewrite list_elem_of_join. intros (k & Hje & Hk).
  apply list_elem_of_fmap in Hk as (j & -> & Hj).
  unfold closingOf in Hje. destruct (heap w !! j) as [c|] eqn:Hc.
  - destruct (readsOpen c) eqn:Hr; [|by apply elem_of_nil in Hje].
    apply list_elem_of_fmap in Hje as (e & -> & He). by exists c, e.
  - by apply elem_of_nil in Hje.
Qed.

Lemma closingOf_elem_of_2 w l j c e :
  j ∈ l → heap w !! j = Some c → readsOpen c = true → e ∈ closeEffects c →
  (j, e) ∈ mjoin (closingOf w <$> l).
Proof.
  intros Hj Hc Hr He. rewrite list_elem_of_join.
  exists (closingOf w j). split; [|by apply list_elem_of_fmap_2].
  unfold closingOf. rewrite Hc, Hr.
  by apply (list_elem_of_fmap_2 (λ e, (j, e))).
Qed.

(** * The claims *)

(** ** C1: mutual exclusion *)

(** C1. Calling open on an instance of a page first runs the loop over the
    registry and only then marks the instance open: what the call adds to the
    journal of the page is the closings, registry order, and after all of
    them the write of [true] to [showDropdown] of the opened instance, its
    click-outside listener and its test flag.  The closings are performed by
    registered instances only and hold no write of [true]; every registered
    instance that is open, the opened one too, closes through its
    [closeDropdown] (the write of [false] and the [close] notification are
    among them); one whose [isOpen] reads as false performs nothing.  After
    the call the instance is open and every other registered one is closed
    (it is what [closeDropdown] made of it if its [isOpen] read as true, and
    untouched otherwise); unregistered ones are left alone.  And in every
    state reached from the empty page by mounting, unmounting, new props,
    rendering, template refs, opening, closing, moving focus and selecting,
    the registry has no instance twice and at most one registered instance is
    open. *)
Theorem openDropdown_mutual_exclusion :
  (∀ w i bounds height doc c,
     NoDup (instances w) → heap w !! i = Some c →
     let w' := openDropdown i bounds height doc w in
     let closing := mjoin (closingOf w <$> instances w) in
     journal w'
     = journal w ++ closing
       ++ [(i, SetShowDropdown true);
           (i, ClickOutsideListener (getActiveElement doc c));
           (i, AnimationFrameTestFlag "common-select.opened")]
     ∧ Forall (λ je, je.1 ∈ instances w ∧ je.2 ≠ SetShowDropdown true) closing
     ∧ (∀ j cj, j ∈ instances w → heap w !! j = Some cj → isOpen cj = true →
          (j, SetShowDropdown false) ∈ closing
          ∧ (j, Emitted Close (boundValue cj)) ∈ closing)
     ∧ (∀ j cj e, j ∈ instances w → heap w !! j = Some cj →
          readsOpen cj = false → (j, e) ∉ closing)
     ∧ (∃ c', heap w' !! i = Some c' ∧ isOpen c' = true
            ∧ c' = showSelf doc
                     ((if decide (i ∈ instances w) then closeIfOpen else id)
                        (set_geometry bounds height c)))
     ∧ (∀ j cj, j ≠ i → j ∈ instances w → heap w !! j = Some cj →
          heap w' !! j = Some (if readsOpen cj then closeDropdown cj else cj)
          ∧ isOpen (if readsOpen cj then closeDropdown cj else cj) = false)
     ∧ (∀ j, j ≠ i → j ∉ instances w → heap w' !! j = heap w !! j))
  ∧ (∀ actions,
       NoDup (instances (run actions initialWorld))
       ∧ atMostOneOpen (run actions initialWorld)).
Proof.
  split.
  - intros w i bounds height doc c Hnd Hc w' closing. subst w' closing.
    split; [by apply openDropdown_journal|].
    split; [|split; [|split; [|split; [|split]]]].
    + apply Forall_forall. intros je Hje.
      apply closingOf_elem_of in Hje as (cj & e & Heq & Hin & _ & _ & He).
      split; [done|]. rewrite Heq. simpl. intros ->.
      unfold closeEffects in He.
      apply list_elem_of_In in He. simpl in He.
      destruct (noRefocus (props cj)); simpl in He;
        intuition discriminate.
    + intros j cj Hj Hcj Ho.
      assert (Hr : readsOpen cj = true)
        by (unfold readsOpen; rewrite Ho; apply orb_true_r).
      split; apply (closingOf_elem_of_2 w _ j cj); try done;
        unfold closeEffects; apply list_elem_of_In; simpl; tauto.
    + intros j cj e Hj Hcj Hr Hin.
      apply closingOf_elem_of in Hin as (c' & e' & _ & _ & Hc' & Hr' & _).
      simpl in Hc'. congruence.
    + eexists. rewrite openDropdown_lookup_self, Hc by done. simpl.
      split; [done|]. split; [apply showSelf_open|done].
    + intros j cj Hne Hin Hj.
      rewrite openDropdown_lookup_other, decide_True, Hj by done.
      split; [done|]. apply closeIfOpen_closed.
    + intros j Hne Hnin.
      by rewrite openDropdown_lookup_other, decide_False by done.
  - intros actions. split.
    + apply run_NoDup. constructor.
    + apply run_atMostOneOpen, initialWorld_atMostOneOpen.
Qed.

Lemma openDropdown_mutual_exclusion_witness :
  ∃ c0 c1,
    heap sampleWorld !! 0 = Some c0 ∧ isOpen c0 = true
    ∧ heap sampleWorld !! 1 = Some c1 ∧ isOpen c1 = false
    ∧ journal (openDropdown 1 (sampleBounds 500) 800%Q sampleDocument
                 sampleWorld)
      = journal sampleWorld
        ++ [(0, SetShowDropdown false);
            (0, Emitted Close MUndefined);
            (0, NextTickFocus);
            (0, NextTickTestFlag "common-select.closed");
            (1, SetShowDropdown true);
            (1, ClickOutsideListener (Some 7));
            (1, AnimationFrameTestFlag "common-select.opened")]
    ∧ heap (openDropdown 1 (sampleBounds 500) 800%Q sampleDocument sampleWorld)
        !! 0 = Some (closeDropdown c0)
    ∧ (∃ c', heap (openDropdown 1 (sampleBounds 500) 800%Q sampleDocument
                     sampleWorld) !! 1 = Some c' ∧ isOpen c' = true).
Proof.
  assert (Hnd : NoDup (instances sampleWorld)).
  { unfold sampleWorld. apply run_NoDup. constructor. }
  eexists _, _.
  split; [vm_compute; reflexivity|]. split; [reflexivity|].
  split; [vm_compute; reflexivity|]. split; [reflexivity|].
  pose proof (proj1 openDropdown_mutual_exclusion sampleWorld 1
                (sampleBounds 500) 800%Q sampleDocument _ Hnd eq_refl) as H.
  cbv zeta in H.
  destruct H as (Hjournal & _ & _ & _ & (c' & Hc' & Ho & _) & Hothers & _).
  split; [exact Hjournal|]. split.
  - refine (proj1 (Hothers 0 _ _ _ eq_refl)); [done|].
    apply list_elem_of_In. simpl. tauto.
  - exists c'. by split.
Defined.

(** ** C2: toggling in multiple mode *)

(** C2, as stated, fails for a value that is selected: with [1, 2] bound, two
    [select]s of option 1 in a row leave [2] (the second one still reads the
    array the props show and removes again), and with a render of the parent
    between them they leave [2, 1].  Neither is the original sequence. *)
Lemma select_twice_does_not_restore :
  disabled (opt 1 false) = false
  ∧ passive (props multipleSample) = false
  ∧ multiple (props multipleSample) = true
  ∧ boundValue multipleSample = MArray [PNumber 1; PNumber 2]
  ∧ boundValue (select (opt 1 false) (select (opt 1 false) multipleSample))
    = MArray [PNumber 2]
  ∧ boundValue
      (select (opt 1 false) (rerender (select (opt 1 false) multipleSample)))
    = MArray [PNumber 2; PNumber 1]
  ∧ boundValue (select (opt 1 false) (select (opt 1 false) multipleSample))
    ≠ boundValue multipleSample
  ∧ boundValue
      (select (opt 1 false) (rerender (select (opt 1 false) multipleSample)))
    ≠ boundValue multipleSample.
Proof. repeat split; vm_compute; (reflexivity || discriminate). Qed.

(** C2, amended. In multiple mode, not passive, with the bound array shown by
    the props, [select] of an enabled option toggles the membership of the
    option's value in the bound array (appended at the end if absent, every
    occurrence removed if present) and leaves the open state as it was.  A
    second [select] of the same option after the parent has rendered toggles
    again: the array has its original members, it is the original array when
    the value was absent, and otherwise the original array with the
    occurrences of the value removed and the value appended at the end.  A
    second [select] before the parent has rendered restores the original
    array when the value was absent, and removes the value again, to the
    same effect as the first, when it was present. *)
Theorem select_multiple_toggles o c a :
  disabled o = false → passive (props c) = false →
  multiple (props c) = true → modelValue (props c) = MArray a →
  pending c = None →
  boundValue (select o c)
  = MArray (if bool_decide (value o ∈ a)
            then filter (λ x, x ≠ value o) a else a ++ [value o])
  ∧ (∀ a1, boundValue (select o c) = MArray a1 →
       ∀ x, x ∈ a1 ↔ if decide (x = value o) then value o ∉ a else x ∈ a)
  ∧ showDropdown (select o c) = showDropdown c
  ∧ (∃ a2, boundValue (select o (rerender (select o c))) = MArray a2
           ∧ (∀ x, x ∈ a2 ↔ x ∈ a)
           ∧ (value o ∉ a → a2 = a)
           ∧ (value o ∈ a → a2 = filter (λ x, x ≠ value o) a ++ [value o]))
  ∧ (value o ∉ a → boundValue (select o (select o c)) = MArray a)
  ∧ (value o ∈ a →
     boundValue (select o (select o c))
     = MArray (filter (λ x, x ≠ value o) a)).
Proof.
  intros Hd Hp Hm Ha Hn.
  pose proof (select_multiple_boundValue o c a Hd Hp Hm Ha Hn) as H1.
  destruct (select_multiple_modelValue o c a Hd Hp Hm Ha) as [Hv Hq].
  pose proof (select_mode o c) as Hmode.
  split; [exact H1|]. split; [|split; [|split; [|split]]].
  - intros a1 Ha1 x. rewrite H1 in Ha1. injection Ha1 as <-.
    apply toggleMembership_elem_of.
  - rewrite (select_multiple_array o c a) by done. by case_bool_decide.
  - exists (toggleMembership (value o) (toggleMembership (value o) a)).
    split; [|apply toggleMembership_twice].
    destruct (rerender_props (select o c)) as (Hrv & Hrm & Hrn).
    apply select_multiple_boundValue; [done| | | |done].
    + by rewrite (mode_passive _ _ Hrm), (mode_passive _ _ Hmode).
    + by rewrite (mode_multiple _ _ Hrm), (mode_multiple _ _ Hmode).
    + by rewrite Hrv.
  - intros Hnin. rewrite bool_decide_false in Hv, Hq by done.
    rewrite (select_multiple_boundValue o (select o c) (a ++ [value o]));
      try done.
    + f_equal. rewrite <- (toggleMembership_absent _ _ Hnin).
      by apply toggleMembership_twice.
    + by rewrite (mode_passive _ _ Hmode).
    + by rewrite (mode_multiple _ _ Hmode).
    + by rewrite Hq.
  - intros Hin. rewrite bool_decide_true in Hv by done.
    destruct (select_multiple_modelValue o (select o c) a) as [_ Hq2];
      try done.
    + by rewrite (mode_passive _ _ Hmode).
    + by rewrite (mode_multiple _ _ Hmode).
    + unfold boundValue. rewrite Hq2. by rewrite bool_decide_true.
Qed.

Lemma select_multiple_toggles_witness :
  boundValue (select (opt 3 false) multipleSample)
  = MArray [PNumber 1; PNumber 2; PNumber 3]
  ∧ boundValue (select (opt 1 false) multipleSample) = MArray [PNumber 2]
  ∧ showDropdown (select (opt 3 false) multipleSample) = true
  ∧ boundValue (select (opt 3 false) (select (opt 3 false) multipleSample))
    = MArray [PNumber 1; PNumber 2].
Proof.
  destruct (select_multiple_toggles (opt 3 false) multipleSample
              [PNumber 1; PNumber 2] eq_refl eq_refl eq_refl eq_refl eq_refl)
    as (H3 & _ & Hopen & _ & Hsame & _).
  destruct (select_multiple_toggles (opt 1 false) multipleSample
              [PNumber 1; PNumber 2] eq_refl eq_refl eq_refl eq_refl eq_refl)
    as (H1 & _).
  split; [exact H3|]. split; [exact H1|]. split; [exact Hopen|].
  apply Hsame. vm_compute.
  intros H. apply list_elem_of_In in H. simpl in H.
  destruct H as [H|[H|[]]]; discriminate H.
Defined.

(** ** C3: single mode *)

(** C3. In single mode, not passive, [select] of an enabled option notifies,
    assigns to the bound value ([undefined] when the props show the option's
    value, the option's value otherwise; what the props show is the bound
    value when nothing is pending) and afterwards, unless [noClose] is set,
    closes the overlay through [closeDropdown]: the instance is what
    [closeDropdown] makes of the instance after the assignment, its effects
    are the [select] notification, the [update:modelValue] notification and
    then those of [closeDropdown], whose [close] handler already finds the
    new value.  With [noClose] set nothing follows the assignment and the
    open state stays as it was. *)
Theorem select_single_replaces o c :
  disabled o = false → passive (props c) = false →
  multiple (props c) = false →
  let v := if bool_decide (modelValue (props c) = MPrimitive (value o))
           then MUndefined else MPrimitive (value o) in
  (modelValue (props c) = MPrimitive (value o) →
   boundValue (select o c) = MUndefined)
  ∧ (modelValue (props c) ≠ MPrimitive (value o) →
     boundValue (select o c) = MPrimitive (value o))
  ∧ showDropdown (select o c)
    = (if noClose (props c) then showDropdown c else false)
  ∧ updateNotifications (effects (select o c))
    = updateNotifications (effects c) ++ [boundValue (select o c)]
  ∧ select o c
    = (if noClose (props c) then id else closeDropdown)
        (assignLocalValue v (emit (Select o) c))
  ∧ effects (select o c)
    = effects c
      ++ [Emitted (Select o) (boundValue c);
          Emitted (UpdateModelValue v) (boundValue c)]
      ++ (if noClose (props c) then []
          else SetShowDropdown false
               :: Emitted Close v
               :: (if noRefocus (props c) then [] else [NextTickFocus])
               ++ [NextTickTestFlag "common-select.closed"])
  ∧ stateOf (select o c)
    = (if noClose (props c) then stateOf c else stateOf (closeDropdown c))
  ∧ (pending c = None →
     (boundValue c = MPrimitive (value o) →
      boundValue (select o c) = MUndefined)
     ∧ (boundValue c ≠ MPrimitive (value o) →
        boundValue (select o c) = MPrimitive (value o))).
Proof.
  intros Hd Hp Hm v. rewrite select_single by done. cbv zeta. fold v.
  assert (Hv : boundValue
            (if noClose (props c)
             then assignLocalValue v (emit (Select o) c)
             else closeDropdown (assignLocalValue v (emit (Select o) c)))
            = v).
  { destruct (noClose (props c)); by rewrite ?closeDropdown_boundValue. }
  rewrite Hv.
  split; [|split; [|split; [|split; [|split; [|split; [|split]]]]]].
  8: { intros Hn. unfold boundValue. rewrite Hn. simpl. subst v.
       split; intros E; [by rewrite bool_decide_true|].
       by rewrite bool_decide_false. }
  - intros E. subst v. by rewrite bool_decide_true.
  - intros E. subst v. by rewrite bool_decide_false.
  - destruct (noClose (props c)); [done|apply closeDropdown_closed].
  - destruct (noClose (props c)).
    + script_simpl. by rewrite !updateNotifications_app, app_nil_r.
    + rewrite closeDropdown_effects.
      rewrite updateNotifications_app.
      rewrite (proj1 (proj2 (closeEffects_quiet _))), app_nil_r.
      script_simpl. by rewrite !updateNotifications_app, app_nil_r.
  - by destruct (noClose (props c)).
  - destruct (noClose (props c)).
    + script_simpl. by rewrite <- app_assoc.
    + rewrite closeDropdown_effects. unfold closeEffects, boundValue.
      script_simpl. by rewrite <- !app_assoc.
  - destruct (noClose (props c)); [done|].
    by rewrite !closeDropdown_stateOf.
Qed.

Lemma select_single_replaces_witness :
  boundValue (select (opt 1 false) (singleSample (MPrimitive (PNumber 1))))
  = MUndefined
  ∧ boundValue (select (opt 3 false) (singleSample (MPrimitive (PNumber 1))))
    = MPrimitive (PNumber 3)
  ∧ showDropdown (select (opt 3 false) (singleSample (MPrimitive (PNumber 1))))
    = false
  ∧ effects (select (opt 3 false) (singleSample (MPrimitive (PNumber 1))))
    = [Emitted (Select (opt 3 false)) (MPrimitive (PNumber 1));
       Emitted (UpdateModelValue (MPrimitive (PNumber 3)))
         (MPrimitive (PNumber 1));
       SetShowDropdown false;
       Emitted Close (MPrimitive (PNumber 3));
       NextTickFocus;
       NextTickTestFlag "common-select.closed"].
Proof.
  destruct (select_single_replaces (opt 1 false)
              (singleSample (MPrimitive (PNumber 1))) eq_refl eq_refl eq_refl)
    as (Hclear & _).
  destruct (select_single_replaces (opt 3 false)
              (singleSample (MPrimitive (PNumber 1))) eq_refl eq_refl eq_refl)
    as (_ & Hreplace & Hclose & _ & _ & Heffects & _).
  split; [exact (Hclear eq_refl)|]. split; [|split; [exact Hclose|]].
  - apply Hreplace. discriminate.
  - exact Heffects.
Defined.

(** ** C4: [selectAll] *)

(** C4. [selectAll] applies [select], in listed order, to exactly the options
    that are enabled and not current when it is called: these are the
    options of the [select] notifications it emits.  In multiple mode, not
    passive, when their values are distinct they are appended to the bound
    array; with options 1, 2 (disabled), 3 and an empty selection the
    selection becomes [1, 3]. *)
Theorem selectAll_selects_unselected c :
  let unselected :=
    filter (λ o, disabled o = false ∧ isCurrentValue c (value o) = false)
           (options (props c)) in
  selectAll c = fold_left (λ c o, select o c) unselected c
  ∧ selectNotifications (effects (selectAll c))
    = selectNotifications (effects c) ++ unselected
  ∧ (∀ a, passive (props c) = false → multiple (props c) = true →
          modelValue (props c) = MArray a →
          NoDup (value <$> unselected) →
          modelValue (props (selectAll c))
          = MArray (a ++ (value <$> unselected)))
  ∧ (∀ l1 l2 l3,
       passive (props c) = false → multiple (props c) = true →
       modelValue (props c) = MArray [] →
       options (props c)
       = [ {| value := PNumber 1; label := l1; disabled := false |};
           {| value := PNumber 2; label := l2; disabled := true |};
           {| value := PNumber 3; label := l3; disabled := false |} ] →
       modelValue (props (selectAll c)) = MArray [PNumber 1; PNumber 3])
  ∧ (∀ a, passive (props c) = false → multiple (props c) = true →
          modelValue (props c) = MArray a → pending c = None →
          NoDup (value <$> unselected) →
          boundValue (selectAll c) = MArray (a ++ (value <$> unselected))).
Proof.
  intros unselected.
  assert (Hall : selectAll c = selectEach unselected c).
  { unfold selectAll. f_equal. apply list_filter_iff. intros o.
    rewrite andb_True, !negb_True, !Is_true_false. done. }
  assert (Hen : Forall (λ o, disabled o = false) unselected).
  { apply Forall_forall. intros o Ho.
    apply list_elem_of_filter in Ho. tauto. }
  assert (Hboth : ∀ a, passive (props c) = false → multiple (props c) = true →
            modelValue (props c) = MArray a →
            NoDup (value <$> unselected) →
            modelValue (props (selectAll c))
            = MArray (a ++ (value <$> unselected))
            ∧ pending (selectAll c) = pending c).
  { intros a Hp Hm Ha Hnd. rewrite Hall.
    apply selectEach_appends; try done.
    intros o Ho. apply list_elem_of_filter in Ho as [[_ Hcur] _].
    unfold isCurrentValue in Hcur. rewrite Hm, Ha in Hcur.
    by apply bool_decide_eq_false in Hcur. }
  assert (Happ : ∀ a, passive (props c) = false → multiple (props c) = true →
            modelValue (props c) = MArray a →
            NoDup (value <$> unselected) →
            modelValue (props (selectAll c))
            = MArray (a ++ (value <$> unselected))).
  { intros a Hp Hm Ha Hnd. by apply Hboth. }
  split; [exact Hall|]. split; [|split; [exact Happ|split]].
  - rewrite Hall. by apply selectEach_notifications.
  - intros l1 l2 l3 Hp Hm Ha Ho.
    assert (Hu : unselected
                 = [ {| value := PNumber 1; label := l1; disabled := false |};
                     {| value := PNumber 3; label := l3; disabled := false |} ]).
    { subst unselected. rewrite Ho. unfold isCurrentValue. rewrite Hm, Ha.
      reflexivity. }
    rewrite (Happ [] Hp Hm Ha); rewrite Hu; [done|].
    simpl. apply NoDup_cons. split.
    + rewrite list_elem_of_singleton. discriminate.
    + apply NoDup_singleton.
  - intros a Hp Hm Ha Hn Hnd.
    destruct (Hboth a Hp Hm Ha Hnd) as [Hv Hq].
    unfold boundValue. by rewrite Hv, Hq, Hn.
Qed.

Lemma selectAll_selects_unselected_witness :
  modelValue (props (selectAll freshMultiple)) = MArray [PNumber 1; PNumber 3]
  ∧ boundValue (selectAll freshMultiple) = MArray [PNumber 1; PNumber 3].
Proof.
  pose proof (selectAll_selects_unselected freshMultiple) as H.
  cbv zeta in H. destruct H as (_ & _ & _ & Hexample & Hbound).
  split.
  - exact (Hexample [] [] [] eq_refl eq_refl eq_refl eq_refl).
  - apply (Hbound [] eq_refl eq_refl eq_refl eq_refl).
    vm_compute. apply NoDup_cons. split.
    + rewrite list_elem_of_singleton. discriminate.
    + apply NoDup_singleton.
Defined.

(** ** C5: placement *)

(** C5, as stated, fails where the trigger is at exactly half the viewport
    height: the direction, evaluated there, is down. *)
Lemma hasDirectionUp_at_half_down :
  inputElementBounds atHalf = Some (sampleBounds 400)
  ∧ windowHeight atHalf = Some 800%Q
  ∧ directionCache atHalf = None
  ∧ (800 / 2 <= Bounding.y (sampleBounds 400))%Q
  ∧ hasDirectionUp atHalf = false
  ∧ readHasDirectionUp atHalf = false
  ∧ ¬ (readHasDirectionUp atHalf = true
       ↔ (800 / 2 <= Bounding.y (sampleBounds 400))%Q).
Proof.
  assert (Hhalf : (800 / 2 <= Bounding.y (sampleBounds 400))%Q)
    by (vm_compute; discriminate).
  repeat split; try done.
  intros [_ H]. by discriminate H.
Qed.

(** C5, amended. Evaluated with the trigger box and the viewport height that
    [openDropdown] has captured, the direction is up exactly when the
    trigger's vertical position is strictly greater than half the viewport
    height, and down otherwise, at exactly half too; evaluated before the
    first [openDropdown] it is down.  What is read is the cached value of
    the computed: an evaluation if nothing is cached, the cached value
    otherwise, whatever has been captured since; rendering an open overlay
    caches what it reads; [openDropdown] captures the new measures and
    leaves the cache alone, so an overlay opened again keeps the direction
    it had until the computed is marked dirty, after which a read evaluates
    anew. *)
Theorem hasDirectionUp_strictly_below_half c bounds height :
  inputElementBounds c = Some bounds → windowHeight c = Some height →
  (hasDirectionUp c = true ↔ (height / 2 < Bounding.y bounds)%Q)
  ∧ (hasDirectionUp c = false ↔ (Bounding.y bounds <= height / 2)%Q)
  ∧ (∀ p, hasDirectionUp (setup p) = false
          ∧ readHasDirectionUp (setup p) = false)
  ∧ (directionCache c = None → readHasDirectionUp c = hasDirectionUp c)
  ∧ (∀ b, directionCache c = Some b → readHasDirectionUp c = b)
  ∧ (showDropdown c = true →
     directionCache (render c) = Some (readHasDirectionUp c)
     ∧ readHasDirectionUp (render c) = readHasDirectionUp c)
  ∧ readHasDirectionUp (render (invalidate c)) = hasDirectionUp c
  ∧ (∀ w i doc c0, heap w !! i = Some c0 →
       ∃ c', heap (openDropdown i bounds height doc w) !! i = Some c'
             ∧ inputElementBounds c' = Some bounds
             ∧ windowHeight c' = Some height
             ∧ hasDirectionUp c' = hasDirectionUp c
             ∧ directionCache c' = directionCache c0
             ∧ (∀ b, directionCache c0 = Some b → readHasDirectionUp c' = b)).
Proof.
  intros Hb Hh. split; [by apply hasDirectionUp_true|].
  split; [|split; [|split; [|split; [|split; [|split]]]]].
  - rewrite <- not_true_iff_false, (hasDirectionUp_true c bounds height) by done.
    split; [apply Qnot_lt_le|apply Qle_not_lt].
  - intros p. unfold readHasDirectionUp, hasDirectionUp, setup.
    by destruct (_ && _).
  - intros Hn. unfold readHasDirectionUp. by rewrite Hn.
  - intros b Hc. unfold readHasDirectionUp. by rewrite Hc.
  - intros Hs. unfold render. by rewrite Hs.
  - unfold render, invalidate, readHasDirectionUp, hasDirectionUp.
    script_simpl. by destruct (showDropdown c).
  - intros w i doc c0 Hc0.
    destruct (openDropdown_lookup_self_iter i bounds height doc w)
      as (n & Hn).
    eexists. rewrite Hn, Hc0. simpl. split; [done|].
    set (c1 := Nat.iter n closeIfOpen (set_geometry bounds height c0)).
    assert (H1 : inputElementBounds c1 = Some bounds
                 ∧ windowHeight c1 = Some height
                 ∧ directionCache c1 = directionCache c0).
    { subst c1.
      by destruct (iter_closeIfOpen_frame n (set_geometry bounds height c0))
        as (_ & _ & -> & -> & ->). }
    destruct H1 as (Hb1 & Hh1 & Hd1).
    change (inputElementBounds (showSelf doc c1)) with (inputElementBounds c1).
    change (windowHeight (showSelf doc c1)) with (windowHeight c1).
    change (directionCache (showSelf doc c1)) with (directionCache c1).
    change (hasDirectionUp (showSelf doc c1)) with (hasDirectionUp c1).
    change (readHasDirectionUp (showSelf doc c1)) with (readHasDirectionUp c1).
    repeat split; try done.
    + unfold hasDirectionUp. by rewrite Hb1, Hh1, Hb, Hh.
    + intros b Hc. unfold readHasDirectionUp. by rewrite Hd1, Hc.
Qed.

Lemma hasDirectionUp_strictly_below_half_witness :
  hasDirectionUp atHalf = false
  ∧ hasDirectionUp (set_geometry (sampleBounds 401) 800 atHalf) = true
  ∧ readHasDirectionUp
      (set_geometry (sampleBounds 401) 800
         (render (set_showDropdown true atHalf))) = false.
Proof.
  split; [|split].
  - apply (proj1 (proj2 (hasDirectionUp_strictly_below_half atHalf
                           (sampleBounds 400) 800 eq_refl eq_refl))).
    vm_compute. discriminate.
  - apply (proj1 (hasDirectionUp_strictly_below_half
                    (set_geometry (sampleBounds 401) 800 atHalf)
                    (sampleBounds 401) 800 eq_refl eq_refl)).
    vm_compute. reflexivity.
  - apply (hasDirectionUp_strictly_below_half
             (set_geometry (sampleBounds 401) 800
                (render (set_showDropdown true atHalf)))
             (sampleBounds 401) 800 eq_refl eq_refl).
    reflexivity.
Defined.

(** ** C6: disabled options *)

(** C6. [select] of a disabled option does nothing, whatever the mode: the
    instance is left exactly as it was, so nothing is emitted, and the bound
    value and the open state are unchanged. *)
Theorem select_disabled_noop o c :
  disabled o = true →
  select o c = c
  ∧ effects (select o c) = effects c
  ∧ modelValue (props (select o c)) = modelValue (props c)
  ∧ showDropdown (select o c) = showDropdown c
  ∧ boundValue (select o c) = boundValue c.
Proof. intros Hd. by rewrite select_disabled. Qed.

Lemma select_disabled_noop_witness :
  select (opt 2 true) multipleSample = multipleSample
  ∧ select (opt 2 true) (singleSample MNull) = singleSample MNull
  ∧ select (opt 2 true) (passiveSample false) = passiveSample false.
Proof.
  split; [|split].
  - exact (proj1 (select_disabled_noop (opt 2 true) multipleSample eq_refl)).
  - exact (proj1 (select_disabled_noop (opt 2 true) (singleSample MNull)
                    eq_refl)).
  - exact (proj1 (select_disabled_noop (opt 2 true) (passiveSample false)
                    eq_refl)).
Defined.

(** ** C7: passive mode *)

(** C7. In passive mode, [select] of an enabled option emits the [select]
    notification, with the bound value as it is, and neither assigns to the
    bound value nor pushes on it; the props and the bound value are
    unchanged.  In multiple mode the rest of the state is unchanged as well;
    in single mode the overlay is then closed by [closeDropdown], which
    changes what [closeDropdown] changes (closed, tab trap released, its
    notification and next-tick tasks) and nothing else. *)
Theorem select_passive_frame o c :
  disabled o = false → passive (props c) = true →
  props (select o c) = props c
  ∧ mutations (effects (select o c)) = mutations (effects c)
  ∧ effects (select o c)
    = effects c ++ Emitted (Select o) (boundValue c)
                   :: (if multiple (props c) then [] else closeEffects c)
  ∧ stateOf (select o c)
    = (if multiple (props c) then stateOf c else stateOf (closeDropdown c))
  ∧ (multiple (props c) = false → showDropdown (select o c) = false)
  ∧ boundValue (select o c) = boundValue c
  ∧ select o c
    = (if multiple (props c) then id else closeDropdown) (emit (Select o) c).
Proof.
  intros Hd Hp. rewrite select_passive by done.
  destruct (multiple (props c)) eqn:Em.
  - script_simpl. rewrite mutations_app. cbn. rewrite app_nil_r.
    by repeat split.
  - rewrite closeDropdown_props, closeDropdown_effects, closeDropdown_closed.
    rewrite !closeDropdown_stateOf, closeDropdown_boundValue.
    rewrite (closeEffects_ext c (emit (Select o) c)) by done.
    script_simpl.
    rewrite !mutations_app, (proj2 (proj2 (closeEffects_quiet _))).
    rewrite <- (app_assoc (effects c)). cbn. rewrite !app_nil_r.
    by repeat split.
Qed.

Lemma select_passive_frame_witness :
  props (select (opt 3 false) (passiveSample true)) = props (passiveSample true)
  ∧ showDropdown (select (opt 3 false) (passiveSample true)) = true
  ∧ props (select (opt 3 false) (passiveSample false))
    = props (passiveSample false)
  ∧ showDropdown (select (opt 3 false) (passiveSample false)) = false.
Proof.
  destruct (select_passive_frame (opt 3 false) (passiveSample true)
              eq_refl eq_refl) as (Hm & _ & _ & Hs & _).
  destruct (select_passive_frame (opt 3 false) (passiveSample false)
              eq_refl eq_refl) as (Hp & _ & _ & _ & Hc & _).
  split; [exact Hm|]. split.
  - exact (f_equal (λ s, s.1.1.1.1.2) Hs).
  - split; [exact Hp|exact (Hc eq_refl)].
Defined.

(** ** C8: closing twice *)

(** C8. [closeDropdown] is defined in every state; on a closed overlay it
    leaves the overlay closed, and a second [closeDropdown] yields the state
    of a single one.  (What the second call adds is only the repetition of
    its effects: the write to [showDropdown], the [close] notification and
    the next-tick tasks.) *)
Theorem closeDropdown_idempotent c :
  showDropdown (closeDropdown c) = false
  ∧ (showDropdown c = false → showDropdown (closeDropdown c) = false)
  ∧ (showDropdown c = false → tabTrap c = false →
     stateOf (closeDropdown c) = stateOf c)
  ∧ stateOf (closeDropdown (closeDropdown c)) = stateOf (closeDropdown c)
  ∧ effects (closeDropdown (closeDropdown c))
    = effects (closeDropdown c) ++ closeEffects c.
Proof.
  split; [apply closeDropdown_closed|].
  split; [intros _; apply closeDropdown_closed|].
  split; [|split].
  - intros Hs Ht. rewrite closeDropdown_stateOf. unfold stateOf.
    by rewrite Hs, Ht.
  - rewrite !closeDropdown_stateOf.
    pose proof (closeDropdown_stateOf c) as H. unfold stateOf in H.
    congruence.
  - rewrite (closeDropdown_effects (closeDropdown c)). f_equal.
    apply closeEffects_ext;
      [apply closeDropdown_props|apply closeDropdown_pending].
Qed.

Lemma closeDropdown_idempotent_witness :
  showDropdown (closeDropdown (setup (sampleProps MNull false false))) = false
  ∧ stateOf (closeDropdown (setup (sampleProps MNull false false)))
    = stateOf (setup (sampleProps MNull false false)).
Proof.
  destruct (closeDropdown_idempotent (setup (sampleProps MNull false false)))
    as (_ & Hclosed & Hsame & _).
  split; [exact (Hclosed eq_refl)|exact (Hsame eq_refl eq_refl)].
Defined.

(** ** C9: the bound value stays an array *)

(** C9. Set up in multiple mode with a [null] or [undefined] value, the
    component at once assigns the empty array to the bound value (emitting
    [update:modelValue]): the parent holds it from then on and the props
    show it after the parent's render.  And in multiple mode, from a bound
    value that is an array, the bound value is an array after any sequence of
    [select] and [selectAll]: the props show an array throughout, and the
    parent holds one. *)
Theorem multiple_value_remains_array :
  (∀ p, multiple p = true →
        modelValue p = MNull ∨ modelValue p = MUndefined →
        boundValue (setup p) = MArray []
        ∧ effects (setup p)
          = [Emitted (UpdateModelValue (MArray [])) (modelValue p)]
        ∧ modelValue (props (rerender (setup p))) = MArray []
        ∧ pending (rerender (setup p)) = None)
  ∧ (∀ ops c a,
       multiple (props c) = true → modelValue (props c) = MArray a →
       multiple (props (fold_left operate ops c)) = true
       ∧ ∃ a', modelValue (props (fold_left operate ops c)) = MArray a')
  ∧ (∀ ops c a b,
       multiple (props c) = true → modelValue (props c) = MArray a →
       boundValue c = MArray b →
       ∃ b', boundValue (fold_left operate ops c) = MArray b').
Proof.
  split; [|split].
  - intros p Hm Hv. unfold rerender, setup. rewrite Hm.
    assert (Hnull : looselyNull (modelValue p) = true)
      by (by destruct Hv as [-> | ->]).
    rewrite Hnull. unfold boundValue. script_simpl. done.
  - intros ops. induction ops as [|op ops IH]; intros c a Hm Ha; simpl.
    + eauto.
    + assert (Hstep : multiple (props (operate c op)) = true
                      ∧ ∃ a', modelValue (props (operate c op)) = MArray a').
      { destruct op as [o|]; simpl.
        - rewrite (mode_multiple _ _ (select_mode o c)).
          split; [done|by apply (select_keeps_array o c a)].
        - rewrite (mode_multiple _ _ (selectAll_mode c)).
          split; [done|by apply (selectEach_keeps_array _ c a)]. }
      destruct Hstep as (Hm' & a' & Ha'). by apply (IH _ a').
  - intros ops. induction ops as [|op ops IH]; intros c a b Hm Ha Hb; simpl.
    + eauto.
    + assert (Hstep : multiple (props (operate c op)) = true
                      ∧ (∃ a', modelValue (props (operate c op)) = MArray a')
                      ∧ ∃ b', boundValue (operate c op) = MArray b').
      { destruct op as [o|]; simpl.
        - rewrite (mode_multiple _ _ (select_mode o c)).
          split; [done|].
          split; [by apply (select_keeps_array o c a)|].
          by apply (select_keeps_bound_array o c a b).
        - rewrite (mode_multiple _ _ (selectAll_mode c)).
          split; [done|].
          split; [by apply (selectEach_keeps_array _ c a)|].
          by apply (selectEach_keeps_bound_array _ c a b). }
      destruct Hstep as (Hm' & (a' & Ha') & (b' & Hb')).
      by apply (IH _ a' b').
Qed.

Lemma multiple_value_remains_array_witness :
  boundValue (setup (sampleProps MNull true false)) = MArray []
  ∧ modelValue (props freshMultiple) = MArray []
  ∧ ∃ b', boundValue
            (fold_left operate
               [OSelect (opt 3 false); OSelectAll; OSelect (opt 1 false)]
               freshMultiple)
          = MArray b'.
Proof.
  destruct multiple_value_remains_array as (Hsetup & _ & Hops).
  destruct (Hsetup (sampleProps MNull true false) eq_refl (or_introl eq_refl))
    as (Hbound & _ & Hshown & _).
  split; [exact Hbound|]. split; [exact Hshown|].
  exact (Hops [OSelect (opt 3 false); OSelectAll; OSelect (opt 1 false)]
           freshMultiple [] [] eq_refl eq_refl eq_refl).
Defined.

(** ** C10: the notification comes first *)

(** C10. In every mode, the first effect of [select] of an enabled option is
    the [select] notification, and its handler finds the bound value of
    before the call; every assignment to the bound value and every push on it
    comes after the notification (there is one unless the mode is passive),
    and no second [select] notification follows. *)
Theorem select_notifies_first o c :
  disabled o = false →
  ∃ rest,
    effects (select o c)
    = effects c ++ Emitted (Select o) (boundValue c) :: rest
    ∧ selectNotifications rest = []
    ∧ mutations (effects (select o c)) = mutations (effects c) ++ mutations rest
    ∧ (passive (props c) = true → mutations rest = [])
    ∧ (passive (props c) = false → mutations rest ≠ []).
Proof.
  intros Hd. destruct (select_effects o c) as (rest & He & Hr & Hq & Hmu).
  rewrite Hd in He. exists rest. split; [done|]. split; [done|].
  split; [|by auto]. rewrite He, mutations_app. done.
Qed.

Lemma select_notifies_first_witness :
  ∃ rest,
    effects (select (opt 3 false) multipleSample)
    = effects multipleSample
      ++ Emitted (Select (opt 3 false)) (MArray [PNumber 1; PNumber 2]) :: rest.
Proof.
  destruct (select_notifies_first (opt 3 false) multipleSample eq_refl)
    as (rest & He & _).
  exists rest. exact He.
Defined.

(** * Further properties of the script *)

(** ** More on [select] *)

Lemma isCurrentValue_array c a v :
  multiple (props c) = true → modelValue (props c) = MArray a →
  isCurrentValue c v = bool_decide (v ∈ a).
Proof. intros Hm Ha. unfold isCurrentValue. by rewrite Hm, Ha. Qed.

Lemma isCurrentValue_scalar c v :
  (multiple (props c) = true → ∀ a, modelValue (props c) ≠ MArray a) →
  isCurrentValue c v = bool_decide (modelValue (props c) = MPrimitive v).
Proof.
  intros Hn. unfold isCurrentValue.
  destruct (multiple (props c)); [|done].
  destruct (modelValue (props c)) as [| |p|a] eqn:E; try done.
  by destruct (Hn eq_refl a).
Qed.

Lemma isCurrentValue_ext c c' v :
  props c' = props c → isCurrentValue c' v = isCurrentValue c v.
Proof. unfold isCurrentValue. by intros ->. Qed.

(** On the path of a single value the props stay as they are and the parent
    gets the new value. *)
Lemma select_scalar_boundValue o c :
  disabled o = false → passive (props c) = false →
  (multiple (props c) = true → ∀ a, modelValue (props c) ≠ MArray a) →
  props (select o c) = props c
  ∧ boundValue (select o c)
    = if bool_decide (modelValue (props c) = MPrimitive (value o))
      then MUndefined else MPrimitive (value o).
Proof.
  intros Hd Hp Hn. rewrite select_scalar by done. cbv zeta.
  destruct (_ && _);
    by rewrite ?closeDropdown_props, ?closeDropdown_boundValue.
Qed.

(** X1. In multiple mode, not passive, on an array: selecting a value that is
    absent pushes it on the bound array in place and emits no
    [update:modelValue]; selecting a value that is present emits one
    [update:modelValue], which carries the array without that value. *)
Theorem select_multiple_update_notifications o c a :
  disabled o = false → passive (props c) = false →
  multiple (props c) = true → modelValue (props c) = MArray a →
  (value o ∉ a →
   updateNotifications (effects (select o c))
   = updateNotifications (effects c)
   ∧ mutations (effects (select o c))
     = mutations (effects c) ++ [ArrayPush (value o)])
  ∧ (value o ∈ a →
     updateNotifications (effects (select o c))
     = updateNotifications (effects c)
       ++ [MArray (filter (λ x, x ≠ value o) a)]).
Proof.
  intros Hd Hp Hm Ha. rewrite (select_multiple_array o c a) by done.
  split; intros Hin.
  - rewrite bool_decide_false by done. script_simpl.
    rewrite !updateNotifications_app, !mutations_app. cbn.
    by rewrite !app_nil_r.
  - rewrite bool_decide_true by done. script_simpl.
    rewrite !updateNotifications_app. cbn. by rewrite app_nil_r.
Qed.

Lemma select_multiple_update_notifications_witness :
  updateNotifications (effects (select (opt 3 false) multipleSample))
  = updateNotifications (effects multipleSample)
  ∧ updateNotifications (effects (select (opt 1 false) multipleSample))
    = updateNotifications (effects multipleSample) ++ [MArray [PNumber 2]].
Proof.
  destruct (select_multiple_update_notifications (opt 3 false) multipleSample
              [PNumber 1; PNumber 2] eq_refl eq_refl eq_refl eq_refl)
    as [Habsent _].
  destruct (select_multiple_update_notifications (opt 1 false) multipleSample
              [PNumber 1; PNumber 2] eq_refl eq_refl eq_refl eq_refl)
    as [_ Hpresent].
  split.
  - apply Habsent. vm_compute. intros H. apply list_elem_of_In in H.
    simpl in H. destruct H as [H|[H|[]]]; discriminate H.
  - apply Hpresent. vm_compute. apply list_elem_of_In. simpl. tauto.
Defined.

(** X2. In multiple mode, not passive, when the props show no array ([null],
    [undefined] or a primitive), [select] takes the single-mode path: the
    bound value becomes the option's value, or [undefined] if the props
    showed that value, so it is not an array afterwards either; and the
    overlay is not closed, whatever [noClose] says. *)
Theorem select_multiple_without_array o c :
  disabled o = false → passive (props c) = false →
  multiple (props c) = true → (∀ a, modelValue (props c) ≠ MArray a) →
  boundValue (select o c)
  = (if bool_decide (modelValue (props c) = MPrimitive (value o))
     then MUndefined else MPrimitive (value o))
  ∧ (∀ a, boundValue (select o c) ≠ MArray a)
  ∧ showDropdown (select o c) = showDropdown c
  ∧ updateNotifications (effects (select o c))
    = updateNotifications (effects c) ++ [boundValue (select o c)].
Proof.
  intros Hd Hp Hm Hn.
  destruct (select_scalar_boundValue o c Hd Hp (λ _, Hn)) as [_ Hv].
  split; [done|]. split; [|split].
  - intros a. rewrite Hv. by case_bool_decide.
  - rewrite select_scalar by auto. cbv zeta. by rewrite Hm.
  - rewrite Hv. rewrite select_scalar by auto. cbv zeta. rewrite Hm.
    cbn [negb andb]. script_simpl.
    rewrite !updateNotifications_app. cbn. by rewrite app_nil_r.
Qed.

Lemma select_multiple_without_array_witness :
  boundValue
    (select (opt 3 false)
       (set_props (sampleProps MNull true false) multipleSample))
  = MPrimitive (PNumber 3)
  ∧ showDropdown
      (select (opt 3 false)
         (set_props (sampleProps MNull true false) multipleSample))
    = true.
Proof.
  destruct (select_multiple_without_array (opt 3 false)
              (set_props (sampleProps MNull true false) multipleSample)
              eq_refl eq_refl eq_refl) as (Hv & _ & Hs & _).
  - intros a. discriminate.
  - split; [exact Hv|exact Hs].
Defined.

(** X3. Not passive and nothing pending, [select] of an enabled option flips
    whether the option's value is current once the parent has rendered, in
    every mode; in multiple mode on an array no other value changes its
    status.  Before that render only a push shows: a value pushed on the
    array is current at once, while after an assignment (a removal from the
    array, or any [select] on the path of a single value) the props, and
    with them what is current, are still what they were. *)
Theorem select_toggles_isCurrentValue o c :
  disabled o = false → passive (props c) = false → pending c = None →
  isCurrentValue (rerender (select o c)) (value o)
  = negb (isCurrentValue c (value o))
  ∧ (∀ a v, multiple (props c) = true → modelValue (props c) = MArray a →
            v ≠ value o →
            isCurrentValue (rerender (select o c)) v = isCurrentValue c v)
  ∧ (∀ a, multiple (props c) = true → modelValue (props c) = MArray a →
          value o ∉ a → isCurrentValue (select o c) (value o) = true)
  ∧ (∀ a, multiple (props c) = true → modelValue (props c) = MArray a →
          value o ∈ a →
          props (select o c) = props c
          ∧ isCurrentValue (select o c) (value o) = true)
  ∧ ((multiple (props c) = true → ∀ a, modelValue (props c) ≠ MArray a) →
     props (select o c) = props c
     ∧ ∀ v, isCurrentValue (select o c) v = isCurrentValue c v).
Proof.
  intros Hd Hp Hpend.
  assert (Hmul : multiple (props (select o c)) = multiple (props c))
    by apply (mode_multiple _ _ (select_mode o c)).
  destruct (rerender_props (select o c)) as (Hrv & Hrm & _).
  apply mode_multiple in Hrm. rewrite Hmul in Hrm.
  destruct (select_cases o c)
    as [Hd'|[[_ Hp']|[(_ & _ & Hm & a & Ha)|(_ & _ & Hn)]]]; try congruence.
  - pose proof (select_multiple_boundValue o c a Hd Hp Hm Ha Hpend) as Hv.
    destruct (select_multiple_modelValue o c a Hd Hp Hm Ha) as [Hshown _].
    assert (Hcur : ∀ v, isCurrentValue (rerender (select o c)) v
                        = bool_decide (v ∈ toggleMembership (value o) a)).
    { intros v. apply isCurrentValue_array; congruence. }
    split; [|split; [|split; [|split]]].
    + rewrite Hcur, (isCurrentValue_array c a) by done.
      pose proof (toggleMembership_elem_of (value o) a (value o)) as Ht.
      rewrite decide_True in Ht by done.
      repeat case_bool_decide; cbn [negb]; tauto.
    + intros a' v _ Ha' Hne. rewrite Hcur, (isCurrentValue_array c a) by done.
      apply bool_decide_ext.
      by rewrite toggleMembership_elem_of, decide_False.
    + intros a' _ Ha' Hnin. assert (a' = a) as -> by congruence.
      rewrite bool_decide_false in Hshown by done.
      rewrite (isCurrentValue_array _ (a ++ [value o])) by congruence.
      apply bool_decide_eq_true. rewrite elem_of_app, list_elem_of_singleton.
      by right.
    + intros a' _ Ha' Hin. assert (a' = a) as -> by congruence.
      assert (Hprops : props (select o c) = props c).
      { rewrite (select_multiple_array o c a) by done.
        by rewrite bool_decide_true. }
      split; [done|]. rewrite (isCurrentValue_ext c) by done.
      rewrite (isCurrentValue_array c a) by done.
      by apply bool_decide_eq_true.
    + intros Hn. by destruct (Hn Hm a).
  - destruct (select_scalar_boundValue o c Hd Hp Hn) as [Hprops Hv].
    split; [|split; [|split; [|split]]].
    + rewrite (isCurrentValue_scalar c) by done.
      rewrite isCurrentValue_scalar.
      * rewrite Hrv, Hv. by repeat case_bool_decide.
      * intros _ a. rewrite Hrv, Hv. by case_bool_decide.
    + intros a v Hm Ha. by destruct (Hn Hm a).
    + intros a Hm Ha. by destruct (Hn Hm a).
    + intros a Hm Ha. by destruct (Hn Hm a).
    + intros _. split; [done|]. intros v. by apply isCurrentValue_ext.
Qed.

Lemma select_toggles_isCurrentValue_witness :
  isCurrentValue (select (opt 1 false) multipleSample) (PNumber 1) = true
  ∧ isCurrentValue (rerender (select (opt 1 false) multipleSample)) (PNumber 1)
    = false
  ∧ isCurrentValue (select (opt 3 false) multipleSample) (PNumber 3) = true
  ∧ isCurrentValue (rerender (select (opt 3 false) multipleSample)) (PNumber 1)
    = true.
Proof.
  destruct (select_toggles_isCurrentValue (opt 1 false) multipleSample
              eq_refl eq_refl eq_refl) as (H1 & _ & _ & Hstale & _).
  destruct (select_toggles_isCurrentValue (opt 3 false) multipleSample
              eq_refl eq_refl eq_refl) as (_ & Hother & Hpush & _).
  split; [|split; [exact H1|split]].
  - apply (Hstale [PNumber 1; PNumber 2] eq_refl eq_refl).
    apply list_elem_of_In. simpl. tauto.
  - apply (Hpush [PNumber 1; PNumber 2] eq_refl eq_refl).
    intros H. apply list_elem_of_In in H. simpl in H.
    destruct H as [H|[H|[]]]; discriminate H.
  - rewrite (Hother [PNumber 1; PNumber 2] (PNumber 1) eq_refl eq_refl).
    + reflexivity.
    + discriminate.
Defined.

(** ** More on [selectAll] *)

Lemma selectable_iff c (o : SelectOption) :
  negb (disabled o) && negb (isCurrentValue c (value o))
  ↔ disabled o = false ∧ isCurrentValue c (value o) = false.
Proof. by rewrite andb_True, !negb_True, !Is_true_false. Qed.

Lemma selectable_enabled c :
  Forall (λ o, disabled o = false)
    (filter (λ o, negb (disabled o) && negb (isCurrentValue c (value o)))
            (options (props c))).
Proof.
  apply Forall_forall. intros o Ho.
  apply list_elem_of_filter in Ho as [Ho _].
  apply selectable_iff in Ho. tauto.
Qed.

Lemma hasMoreSelectableOptions_true c :
  hasMoreSelectableOptions c = true
  ↔ ∃ o, o ∈ options (props c) ∧ disabled o = false
         ∧ isCurrentValue c (value o) = false.
Proof.
  unfold hasMoreSelectableOptions.
  set (l := filter _ (options (props c))).
  assert (Hl : ∀ o, o ∈ l ↔ o ∈ options (props c) ∧ disabled o = false
                              ∧ isCurrentValue c (value o) = false).
  { intros o. subst l. rewrite list_elem_of_filter, selectable_iff. tauto. }
  rewrite bool_decide_eq_true. split.
  - intros Hlen. destruct l as [|o l']; [simpl in Hlen; lia|].
    exists o. apply Hl. left.
  - intros (o & Ho). apply Hl in Ho.
    destruct l; [by apply elem_of_nil in Ho|simpl; lia].
Qed.

(** X4. [hasMoreSelectableOptions] holds exactly when some listed option is
    enabled and not current.  When it does not hold [selectAll] does
    nothing at all; when it holds [selectAll] has effects. *)
Theorem hasMoreSelectableOptions_selectAll c :
  (hasMoreSelectableOptions c = true
   ↔ ∃ o, o ∈ options (props c) ∧ disabled o = false
          ∧ isCurrentValue c (value o) = false)
  ∧ (hasMoreSelectableOptions c = false → selectAll c = c)
  ∧ (hasMoreSelectableOptions c = true → effects (selectAll c) ≠ effects c).
Proof.
  split; [apply hasMoreSelectableOptions_true|].
  unfold hasMoreSelectableOptions, selectAll.
  pose proof (selectable_enabled c) as Hen.
  set (l := filter _ (options (props c))) in *.
  split.
  - rewrite bool_decide_eq_false. intros Hlen.
    destruct l; [done|simpl in Hlen; lia].
  - rewrite bool_decide_eq_true. intros Hlen Heq.
    pose proof (selectEach_notifications l c Hen) as Hn.
    rewrite Heq in Hn. rewrite <- (app_nil_r (selectNotifications _)) in Hn at 1.
    apply app_inv_head in Hn. subst l. rewrite <- Hn in Hlen.
    simpl in Hlen. lia.
Qed.

Lemma hasMoreSelectableOptions_selectAll_witness :
  selectAll (selectAll multipleSample) = selectAll multipleSample
  ∧ effects (selectAll multipleSample) ≠ effects multipleSample.
Proof.
  destruct (hasMoreSelectableOptions_selectAll (selectAll multipleSample))
    as (_ & Hnoop & _).
  destruct (hasMoreSelectableOptions_selectAll multipleSample)
    as (_ & _ & Heffects).
  split; [exact (Hnoop eq_refl)|exact (Heffects eq_refl)].
Defined.

(** X5. In multiple mode, not passive, on an array, when the options that are
    enabled and not current have distinct values: after [selectAll] every
    enabled option is current and nothing more is selectable. *)
Theorem selectAll_selects_everything c a :
  passive (props c) = false → multiple (props c) = true →
  modelValue (props c) = MArray a →
  NoDup (value <$> filter (λ o, disabled o = false
                                ∧ isCurrentValue c (value o) = false)
                          (options (props c))) →
  (∀ o, o ∈ options (props c) → disabled o = false →
        isCurrentValue (selectAll c) (value o) = true)
  ∧ hasMoreSelectableOptions (selectAll c) = false.
Proof.
  intros Hp Hm Ha Hnd.
  rewrite (list_filter_iff _
             (λ o, negb (disabled o) && negb (isCurrentValue c (value o))))
    in Hnd by (intros o; by rewrite selectable_iff).
  pose proof (selectable_enabled c) as Hen.
  assert (Hmode := selectAll_mode c).
  assert (Hm' : multiple (props (selectAll c)) = true)
    by (by rewrite (mode_multiple _ _ Hmode)).
  assert (Ho' : options (props (selectAll c)) = options (props c))
    by (unfold mode in Hmode; congruence).
  assert (Hv : modelValue (props (selectAll c))
               = MArray (a ++ (value <$>
                   filter (λ o, negb (disabled o)
                                && negb (isCurrentValue c (value o)))
                          (options (props c))))).
  { unfold selectAll. apply selectEach_appends; try done.
    intros o Ho. apply list_elem_of_filter in Ho as [Ho _].
    apply selectable_iff in Ho as [_ Hcur].
    rewrite (isCurrentValue_array c a) in Hcur by done.
    by apply bool_decide_eq_false in Hcur. }
  assert (Hall : ∀ o, o ∈ options (props c) → disabled o = false →
                      isCurrentValue (selectAll c) (value o) = true).
  { intros o Ho Hd. rewrite (isCurrentValue_array _ _ _ Hm' Hv).
    apply bool_decide_eq_true. rewrite elem_of_app.
    destruct (isCurrentValue c (value o)) eqn:Hcur.
    - left. rewrite (isCurrentValue_array c a) in Hcur by done.
      by apply bool_decide_eq_true in Hcur.
    - right. apply list_elem_of_fmap_2, list_elem_of_filter.
      split; [by apply selectable_iff|done]. }
  split; [exact Hall|].
  destruct (hasMoreSelectableOptions (selectAll c)) eqn:Hmore; [|done].
  apply hasMoreSelectableOptions_true in Hmore as (o & Ho & Hd & Hcur).
  rewrite Ho' in Ho. by rewrite (Hall o Ho Hd) in Hcur.
Qed.

Lemma selectAll_selects_everything_witness :
  hasMoreSelectableOptions multipleSample = true
  ∧ hasMoreSelectableOptions (selectAll multipleSample) = false.
Proof.
  split; [reflexivity|].
  refine (proj2 (selectAll_selects_everything multipleSample
                   [PNumber 1; PNumber 2] eq_refl eq_refl eq_refl _)).
  vm_compute. apply NoDup_singleton.
Defined.

Lemma select_passive_untouched o c :
  passive (props c) = true →
  props (select o c) = props c
  ∧ pending (select o c) = pending c
  ∧ mutations (effects (select o c)) = mutations (effects c)
  ∧ (multiple (props c) = true → stateOf (select o c) = stateOf c).
Proof.
  intros Hp. destruct (disabled o) eqn:Hd.
  { by rewrite select_disabled. }
  rewrite select_passive by done. destruct (multiple (props c)).
  - script_simpl. rewrite mutations_app. cbn. by rewrite app_nil_r.
  - rewrite closeDropdown_props, closeDropdown_pending, closeDropdown_effects.
    script_simpl. rewrite !mutations_app.
    rewrite (proj2 (proj2 (closeEffects_quiet _))). cbn.
    by rewrite !app_nil_r.
Qed.

(** X6. In passive mode [selectAll] changes neither the props nor the bound
    value and performs no assignment or push: it only notifies, once for
    each option that is enabled and not current, in listed order.  In
    multiple mode it leaves the whole state as it was. *)
Theorem selectAll_passive c :
  passive (props c) = true →
  props (selectAll c) = props c
  ∧ mutations (effects (selectAll c)) = mutations (effects c)
  ∧ selectNotifications (effects (selectAll c))
    = selectNotifications (effects c)
      ++ filter (λ o, disabled o = false ∧ isCurrentValue c (value o) = false)
                (options (props c))
  ∧ (multiple (props c) = true → stateOf (selectAll c) = stateOf c)
  ∧ boundValue (selectAll c) = boundValue c.
Proof.
  intros Hp.
  assert (Hfold : ∀ l c', passive (props c') = true →
            props (selectEach l c') = props c'
            ∧ pending (selectEach l c') = pending c'
            ∧ mutations (effects (selectEach l c')) = mutations (effects c')
            ∧ (multiple (props c') = true →
               stateOf (selectEach l c') = stateOf c')).
  { unfold selectEach. induction l as [|o l IH]; intros c' Hp'; simpl; [done|].
    destruct (select_passive_untouched o c' Hp') as (Hprops & Hpend & Hmut & Hst).
    destruct (IH (select o c')) as (Hprops' & Hpend' & Hmut' & Hst');
      [congruence|].
    split; [congruence|]. split; [congruence|]. split; [congruence|].
    intros Hm. rewrite Hst' by congruence. by apply Hst. }
  destruct (Hfold (filter (λ o, negb (disabled o)
                                && negb (isCurrentValue c (value o)))
                          (options (props c))) c Hp) as (H1 & H0 & H2 & H3).
  split; [exact H1|]. split; [exact H2|]. split; [|split; [exact H3|]].
  - unfold selectAll.
    rewrite selectEach_notifications by apply selectable_enabled.
    f_equal. apply list_filter_iff. intros o. apply selectable_iff.
  - unfold boundValue, selectAll. by rewrite H1, H0.
Qed.

Lemma selectAll_passive_witness :
  props (selectAll (passiveSample true)) = props (passiveSample true)
  ∧ stateOf (selectAll (passiveSample true)) = stateOf (passiveSample true)
  ∧ selectNotifications (effects (selectAll (passiveSample true)))
    = [opt 3 false].
Proof.
  destruct (selectAll_passive (passiveSample true) eq_refl)
    as (Hprops & _ & Hn & Hst & _).
  split; [exact Hprops|]. split; [exact (Hst eq_refl)|].
  rewrite Hn. reflexivity.
Defined.

Lemma toggleMembership_NoDup v a : NoDup a → NoDup (toggleMembership v a).
Proof.
  intros Hnd. unfold toggleMembership. case_bool_decide as Hin.
  - by apply NoDup_filter.
  - apply NoDup_app. split; [done|]. split.
    + by intros x Hx ->%list_elem_of_singleton.
    + apply NoDup_singleton.
Qed.

Lemma select_keeps_NoDup o c a :
  multiple (props c) = true → modelValue (props c) = MArray a → NoDup a →
  ∃ a', modelValue (props (select o c)) = MArray a' ∧ NoDup a'.
Proof.
  intros Hm Ha Hnd.
  destruct (select_cases o c)
    as [Hd|[[Hd Hp]|[(Hd & Hp & _)|(Hd & Hp & Hn)]]].
  - rewrite select_disabled by done. eauto.
  - rewrite (proj1 (select_passive_untouched o c Hp)). eauto.
  - rewrite (proj1 (select_multiple_modelValue o c a Hd Hp Hm Ha)).
    pose proof (toggleMembership_NoDup (value o) a Hnd) as Ht.
    unfold toggleMembership in Ht. case_bool_decide; eauto.
  - by destruct (Hn Hm a).
Qed.

Lemma selectEach_keeps_NoDup l c a :
  multiple (props c) = true → modelValue (props c) = MArray a → NoDup a →
  ∃ a', modelValue (props (selectEach l c)) = MArray a' ∧ NoDup a'.
Proof.
  unfold selectEach. revert c a.
  induction l as [|o l IH]; intros c a Hm Ha Hnd; simpl; [eauto|].
  destruct (select_keeps_NoDup o c a Hm Ha Hnd) as (a' & Ha' & Hnd').
  apply (IH _ a'); [|done|done].
  by rewrite (mode_multiple _ _ (select_mode o c)).
Qed.

(** With arrays without duplicates in the props and at the parent, the
    parent holds an array without duplicates after [select]. *)
Lemma select_keeps_bound_NoDup o c a b :
  multiple (props c) = true → modelValue (props c) = MArray a → NoDup a →
  boundValue c = MArray b → NoDup b →
  ∃ b', boundValue (select o c) = MArray b' ∧ NoDup b'.
Proof.
  intros Hm Ha Hnd Hb Hndb.
  destruct (select_cases o c)
    as [Hd|[[Hd Hp]|[(Hd & Hp & _)|(Hd & Hp & Hn)]]].
  - rewrite select_disabled by done. eauto.
  - destruct (select_passive_untouched o c Hp) as (Hprops & Hpend & _).
    unfold boundValue in *. rewrite Hprops, Hpend. eauto.
  - destruct (select_multiple_modelValue o c a Hd Hp Hm Ha) as [Hv Hq].
    unfold boundValue in *. rewrite Hv, Hq.
    pose proof (toggleMembership_NoDup (value o) a Hnd) as Ht.
    unfold toggleMembership in Ht.
    case_bool_decide; simpl; [eauto|].
    destruct (pending c); simpl in *; eauto.
  - by destruct (Hn Hm a).
Qed.

Lemma selectEach_keeps_bound_NoDup l c a b :
  multiple (props c) = true → modelValue (props c) = MArray a → NoDup a →
  boundValue c = MArray b → NoDup b →
  ∃ b', boundValue (selectEach l c) = MArray b' ∧ NoDup b'.
Proof.
  unfold selectEach. revert c a b.
  induction l as [|o l IH]; intros c a b Hm Ha Hnd Hb Hndb; simpl; [eauto|].
  destruct (select_keeps_NoDup o c a Hm Ha Hnd) as (a' & Ha' & Hnd').
  destruct (select_keeps_bound_NoDup o c a b Hm Ha Hnd Hb Hndb)
    as (b' & Hb' & Hndb').
  apply (IH _ a' b'); try done.
  by rewrite (mode_multiple _ _ (select_mode o c)).
Qed.

(** X7. In multiple mode, a bound array without duplicates is an array
    without duplicates after any sequence of [select] and [selectAll]: the
    array the props show, and the one the parent holds. *)
Theorem selection_stays_duplicate_free ops c a :
  multiple (props c) = true → modelValue (props c) = MArray a → NoDup a →
  (∃ a', modelValue (props (fold_left operate ops c)) = MArray a' ∧ NoDup a')
  ∧ (pending c = None →
     ∃ b', boundValue (fold_left operate ops c) = MArray b' ∧ NoDup b').
Proof.
  intros Hm Ha Hnd. split.
  - revert c a Hm Ha Hnd.
    induction ops as [|op ops IH]; intros c a Hm Ha Hnd; simpl.
    + eauto.
    + assert (Hstep : multiple (props (operate c op)) = true
                      ∧ ∃ a', modelValue (props (operate c op)) = MArray a'
                              ∧ NoDup a').
      { destruct op as [o|]; simpl.
        - rewrite (mode_multiple _ _ (select_mode o c)).
          split; [done|by apply (select_keeps_NoDup o c a)].
        - rewrite (mode_multiple _ _ (selectAll_mode c)).
          split; [done|by apply (selectEach_keeps_NoDup _ c a)]. }
      destruct Hstep as (Hm' & a' & Ha' & Hnd'). by apply (IH _ a').
  - intros Hn.
    assert (Hb : boundValue c = MArray a)
      by (unfold boundValue; by rewrite Hn).
    cut (∀ b, boundValue c = MArray b → NoDup b →
              ∃ b', boundValue (fold_left operate ops c) = MArray b'
                    ∧ NoDup b').
    { intros Hcut. by apply (Hcut a). }
    clear Hn Hb. intros b Hb Hndb. revert c a b Hm Ha Hnd Hb Hndb.
    induction ops as [|op ops IH]; intros c a b Hm Ha Hnd Hb Hndb; simpl.
    + eauto.
    + assert (Hstep : multiple (props (operate c op)) = true
                      ∧ (∃ a', modelValue (props (operate c op)) = MArray a'
                               ∧ NoDup a')
                      ∧ (∃ b', boundValue (operate c op) = MArray b'
                               ∧ NoDup b')).
      { destruct op as [o|]; simpl.
        - rewrite (mode_multiple _ _ (select_mode o c)).
          split; [done|].
          split; [by apply (select_keeps_NoDup o c a)|].
          by apply (select_keeps_bound_NoDup o c a b).
        - rewrite (mode_multiple _ _ (selectAll_mode c)).
          split; [done|].
          split; [by apply (selectEach_keeps_NoDup _ c a)|].
          by apply (selectEach_keeps_bound_NoDup _ c a b). }
      destruct Hstep as (Hm' & (a' & Ha' & Hnd') & (b' & Hb' & Hndb')).
      by apply (IH _ a' b').
Qed.

Lemma selection_stays_duplicate_free_witness :
  ∃ a', modelValue
          (props (fold_left operate
                    [OSelect (opt 1 false); OSelectAll; OSelect (opt 1 false)]
                    multipleSample))
        = MArray a' ∧ NoDup a'.
Proof.
  apply (selection_stays_duplicate_free
           [OSelect (opt 1 false); OSelectAll; OSelect (opt 1 false)]
           multipleSample [PNumber 1; PNumber 2] eq_refl eq_refl).
  apply NoDup_cons. split.
  - rewrite list_elem_of_singleton. discriminate.
  - apply NoDup_singleton.
Defined.

(** ** Placement and style *)

Lemma closeDropdown_placement c :
  inputElementBounds (closeDropdown c) = inputElementBounds c
  ∧ windowHeight (closeDropdown c) = windowHeight c
  ∧ lastFocusableOutsideElement (closeDropdown c)
    = lastFocusableOutsideElement c
  ∧ directionCache (closeDropdown c) = directionCache c.
Proof. unfold closeDropdown. by destruct (noRefocus _). Qed.

Lemma select_placement o c :
  inputElementBounds (select o c) = inputElementBounds c
  ∧ windowHeight (select o c) = windowHeight c
  ∧ lastFocusableOutsideElement (select o c) = lastFocusableOutsideElement c
  ∧ directionCache (select o c) = directionCache c.
Proof.
  destruct (select_cases o c)
    as [Hd|[[Hd Hp]|[(Hd & Hp & Hm & a & Ha)|(Hd & Hp & Hm)]]].
  - by rewrite select_disabled.
  - rewrite select_passive by done. destruct (multiple (props c)); [done|].
    by destruct (closeDropdown_placement (emit (Select o) c))
      as (-> & -> & -> & ->).
  - rewrite (select_multiple_array o c a) by done. by case_bool_decide.
  - rewrite select_scalar by done. cbv zeta.
    destruct (_ && _); [|done].
    match goal with
    | |- context [closeDropdown ?x] =>
        destruct (closeDropdown_placement x) as (-> & -> & -> & ->)
    end. done.
Qed.

Lemma selectEach_placement l c :
  inputElementBounds (selectEach l c) = inputElementBounds c
  ∧ windowHeight (selectEach l c) = windowHeight c
  ∧ lastFocusableOutsideElement (selectEach l c)
    = lastFocusableOutsideElement c
  ∧ directionCache (selectEach l c) = directionCache c.
Proof.
  unfold selectEach. revert c. induction l as [|o l IH]; intros c; simpl.
  - done.
  - destruct (IH (select o c)) as (-> & -> & -> & ->). apply select_placement.
Qed.

Lemma dropdownStyle_ext c c' :
  inputElementBounds c = inputElementBounds c' →
  windowHeight c = windowHeight c' →
  directionCache c = directionCache c' →
  hasDirectionUp c = hasDirectionUp c'
  ∧ readHasDirectionUp c = readHasDirectionUp c'
  ∧ dropdownStyle c = dropdownStyle c'.
Proof.
  intros Hb Hh Hd.
  unfold dropdownStyle, readHasDirectionUp, hasDirectionUp.
  by rewrite Hb, Hh, Hd.
Qed.

(** X8. [select] and [selectAll] never move the panel: the captured trigger
    box and viewport height, the element remembered for the refocus, and
    with them the direction, evaluated or read from the cache, and the style
    an evaluation gives, are what they were. *)
Theorem select_keeps_placement o c :
  (inputElementBounds (select o c) = inputElementBounds c
   ∧ windowHeight (select o c) = windowHeight c
   ∧ lastFocusableOutsideElement (select o c) = lastFocusableOutsideElement c
   ∧ hasDirectionUp (select o c) = hasDirectionUp c
   ∧ dropdownStyle (select o c) = dropdownStyle c)
  ∧ (inputElementBounds (selectAll c) = inputElementBounds c
     ∧ windowHeight (selectAll c) = windowHeight c
     ∧ lastFocusableOutsideElement (selectAll c)
       = lastFocusableOutsideElement c
     ∧ hasDirectionUp (selectAll c) = hasDirectionUp c
     ∧ dropdownStyle (selectAll c) = dropdownStyle c)
  ∧ readHasDirectionUp (select o c) = readHasDirectionUp c
  ∧ readHasDirectionUp (selectAll c) = readHasDirectionUp c.
Proof.
  destruct (select_placement o c) as (Hb & Hh & Hl & Hd).
  destruct (dropdownStyle_ext _ _ Hb Hh Hd) as (Hup & Hread & Hstyle).
  destruct (selectEach_placement
              (filter (λ o, negb (disabled o)
                            && negb (isCurrentValue c (value o)))
                      (options (props c))) c) as (Hb' & Hh' & Hl' & Hd').
  destruct (dropdownStyle_ext _ _ Hb' Hh' Hd') as (Hup' & Hread' & Hstyle').
  split; [by repeat split|]. split; [by repeat split|]. by split.
Qed.

(** ** More on opening and closing *)

Lemma getActiveElement_props doc c c' :
  props c = props c' → getActiveElement doc c = getActiveElement doc c'.
Proof. unfold getActiveElement. by intros ->. Qed.

Lemma showSelf_spec doc x :
  props (showSelf doc x) = props x
  ∧ pending (showSelf doc x) = pending x
  ∧ tabTrap (showSelf doc x) = tabTrap x
  ∧ lastFocusableOutsideElement (showSelf doc x) = getActiveElement doc x.
Proof. done. Qed.

(** X10. [openDropdown] remembers the element to refocus and tells the
    click-outside listener to ignore it: with a non-empty [owner] it is the
    element of that id, [null] if there is none, and otherwise the active
    element of the document.  The listener and the test flag are the last
    two effects of the instance, and its props are unchanged. *)
Theorem openDropdown_remembers_focus w i bounds height doc c :
  heap w !! i = Some c →
  ∃ c' before,
    heap (openDropdown i bounds height doc w) !! i = Some c'
    ∧ props c' = props c
    ∧ lastFocusableOutsideElement c' = getActiveElement doc c
    ∧ effects c'
      = before ++ [ClickOutsideListener (getActiveElement doc c);
                   AnimationFrameTestFlag "common-select.opened"]
    ∧ (owner (props c) = None ∨ owner (props c) = Some "" →
       getActiveElement doc c = activeElement doc)
    ∧ (∀ id, owner (props c) = Some id → id ≠ "" →
             getActiveElement doc c = getElementById doc id).
Proof.
  intros Hc.
  destruct (openDropdown_lookup_self_iter i bounds height doc w) as (n & Hn).
  set (x := Nat.iter n closeIfOpen (set_geometry bounds height c)) in *.
  assert (Hx : props x = props c).
  { subst x.
    by destruct (iter_closeIfOpen_frame n (set_geometry bounds height c))
      as (-> & _). }
  exists (showSelf doc x), (effects x ++ [SetShowDropdown true]).
  split; [by rewrite Hn, Hc|].
  split; [done|].
  rewrite <- (getActiveElement_props doc x c Hx).
  split; [done|]. split.
  { rewrite showSelf_effects. by rewrite <- app_assoc. }
  rewrite (getActiveElement_props doc x c Hx). unfold getActiveElement.
  split.
  - by intros [-> | ->].
  - intros id -> Hne. by rewrite decide_False.
Qed.

Lemma openDropdown_remembers_focus_witness :
  ∃ c', heap (openDropdown 1 (sampleBounds 500) 800%Q sampleDocument
                sampleWorld) !! 1 = Some c'
        ∧ lastFocusableOutsideElement c' = Some 7.
Proof.
  destruct (openDropdown_remembers_focus sampleWorld 1 (sampleBounds 500)
              800%Q sampleDocument _ eq_refl)
    as (c' & before & Hc' & _ & Hl & _).
  exists c'. split; [exact Hc'|exact Hl].
Defined.

(** X11. Opening an instance that is registered and whose [isOpen] reads as
    true through the registry (it is open, or its exposed instance has been
    marked raw by a template ref of the parent, so that the computed ref
    itself is read) closes it first: it emits [close] once more, with the
    other effects of a [closeDropdown], releases the tab trap, and is open
    afterwards.  An instance that is not registered, or whose [isOpen] reads
    as false, only gets the write to [showDropdown], the listener and the
    test flag. *)
Theorem openDropdown_reopens w i bounds height doc c :
  NoDup (instances w) → heap w !! i = Some c →
  ∃ c',
    heap (openDropdown i bounds height doc w) !! i = Some c'
    ∧ isOpen c' = true
    ∧ (i ∈ instances w → isOpen c = true ∨ exposedRaw c = true →
       effects c'
       = effects c ++ closeEffects c
         ++ [SetShowDropdown true;
             ClickOutsideListener (getActiveElement doc c);
             AnimationFrameTestFlag "common-select.opened"]
       ∧ tabTrap c' = false)
    ∧ (i ∉ instances w ∨ (isOpen c = false ∧ exposedRaw c = false) →
       effects c'
       = effects c
         ++ [SetShowDropdown true;
             ClickOutsideListener (getActiveElement doc c);
             AnimationFrameTestFlag "common-select.opened"]
       ∧ tabTrap c' = tabTrap c).
Proof.
  intros Hnd Hc. eexists. rewrite openDropdown_lookup_self, Hc by done. simpl.
  split; [done|]. split; [done|].
  set (g := set_geometry bounds height c).
  split.
  - intros Hin Ho. rewrite decide_True by done.
    assert (Hr : readsOpen g = true).
    { unfold readsOpen. change (exposedRaw g) with (exposedRaw c).
      change (isOpen g) with (isOpen c).
      destruct Ho as [-> | ->]; [apply orb_true_r|done]. }
    unfold closeIfOpen. rewrite Hr.
    rewrite showSelf_effects.
    destruct (showSelf_spec doc (closeDropdown g)) as (_ & _ & -> & _).
    rewrite closeDropdown_tabTrap, closeDropdown_effects.
    rewrite (getActiveElement_props doc (closeDropdown g) c)
      by (by rewrite closeDropdown_props).
    rewrite (closeEffects_ext c g) by done.
    by rewrite <- app_assoc.
  - intros Hcase.
    assert (Hx : (if decide (i ∈ instances w) then closeIfOpen else id) g = g).
    { case_decide; [|done]. destruct Hcase as [?|[Ho Hraw]]; [done|].
      unfold closeIfOpen, readsOpen.
      change (exposedRaw g) with (exposedRaw c).
      change (isOpen g) with (isOpen c). by rewrite Ho, Hraw. }
    rewrite Hx, showSelf_effects.
    by destruct (showSelf_spec doc g) as (_ & _ & -> & _).
Qed.

Lemma openDropdown_reopens_witness :
  (∃ c c',
     heap sampleWorld !! 0 = Some c
     ∧ heap (openDropdown 0 (sampleBounds 10) 800%Q sampleDocument sampleWorld)
         !! 0 = Some c'
     ∧ effects c'
       = effects c ++ closeEffects c
         ++ [SetShowDropdown true;
             ClickOutsideListener (Some 7);
             AnimationFrameTestFlag "common-select.opened"])
  ∧ (∃ c c',
       heap sampleWorldWithRefs !! 1 = Some c
       ∧ isOpen c = false
       ∧ heap (openDropdown 1 (sampleBounds 10) 800%Q sampleDocument
                 sampleWorldWithRefs) !! 1 = Some c'
       ∧ effects c'
         = effects c ++ closeEffects c
           ++ [SetShowDropdown true;
               ClickOutsideListener (Some 7);
               AnimationFrameTestFlag "common-select.opened"]).
Proof.
  assert (Hnd : NoDup (instances sampleWorld)).
  { unfold sampleWorld. apply run_NoDup. constructor. }
  assert (Hnd' : NoDup (instances sampleWorldWithRefs)).
  { unfold sampleWorldWithRefs. apply run_NoDup. constructor. }
  split.
  - destruct (openDropdown_reopens sampleWorld 0 (sampleBounds 10) 800%Q
                sampleDocument _ Hnd eq_refl) as (c' & Hc' & _ & Hopen & _).
    eexists _, c'. split; [reflexivity|]. split; [exact Hc'|].
    apply Hopen; [|by left].
    apply list_elem_of_In. simpl. tauto.
  - destruct (openDropdown_reopens sampleWorldWithRefs 1 (sampleBounds 10)
                800%Q sampleDocument _ Hnd' eq_refl)
      as (c' & Hc' & _ & Hopen & _).
    eexists _, c'. split; [reflexivity|]. split; [reflexivity|].
    split; [exact Hc'|].
    apply Hopen; [|by right].
    apply list_elem_of_In. simpl. tauto.
Defined.

(** X12. After an instance has been opened and then closed, no registered
    instance is open. *)
Theorem open_then_close_all_closed w i bounds height doc j cj :
  j ∈ instances w →
  heap (act (act w (AOpen i bounds height doc)) (AClose i)) !! j = Some cj →
  isOpen cj = false.
Proof.
  intros Hj. cbn [act].
  destruct (decide (j = i)) as [->|Hne].
  - rewrite onInstance_lookup_eq. intros Hl.
    destruct (heap _ !! i); simplify_eq/=. apply closeDropdown_closed.
  - rewrite onInstance_lookup_ne by done.
    destruct (openDropdown_lookup_other_iter i j bounds height doc w Hne)
      as (n & Hn & Hpos & _).
    rewrite Hn. intros Hl.
    destruct (heap w !! j); simplify_eq/=.
    apply iter_closeIfOpen_closed. auto.
Qed.

Lemma open_then_close_all_closed_witness :
  ∃ c0 c1,
    heap (act (act sampleWorld (AOpen 1 (sampleBounds 500) 800%Q
                                  sampleDocument)) (AClose 1)) !! 0 = Some c0
    ∧ isOpen c0 = false
    ∧ heap (act (act sampleWorld (AOpen 1 (sampleBounds 500) 800%Q
                                    sampleDocument)) (AClose 1)) !! 1 = Some c1
    ∧ isOpen c1 = false.
Proof.
  eexists _, _.
  split; [vm_compute; reflexivity|]. split.
  - eapply (open_then_close_all_closed sampleWorld 1 (sampleBounds 500)
              800%Q sampleDocument 0).
    + vm_compute. apply list_elem_of_In. simpl. tauto.
    + vm_compute. reflexivity.
  - split; [vm_compute; reflexivity|].
    eapply (open_then_close_all_closed sampleWorld 1 (sampleBounds 500)
              800%Q sampleDocument 1).
    + vm_compute. apply list_elem_of_In. simpl. tauto.
    + vm_compute. reflexivity.
Defined.

(** X13. [openDropdown] changes the props, and so the bound value, of no
    instance; it adds no instance and leaves the registry as it was. *)
Theorem openDropdown_keeps_props w i bounds height doc :
  (∀ j, props <$> heap (openDropdown i bounds height doc w) !! j
        = props <$> heap w !! j)
  ∧ length (heap (openDropdown i bounds height doc w)) = length (heap w)
  ∧ instances (openDropdown i bounds height doc w) = instances w
  ∧ (∀ j, boundValue <$> heap (openDropdown i bounds height doc w) !! j
          = boundValue <$> heap w !! j).
Proof.
  assert (Hframe : ∀ j,
            props <$> heap (openDropdown i bounds height doc w) !! j
            = props <$> heap w !! j
            ∧ pending <$> heap (openDropdown i bounds height doc w) !! j
              = pending <$> heap w !! j).
  { intros j. destruct (decide (j = i)) as [->|Hne].
    - destruct (openDropdown_lookup_self_iter i bounds height doc w)
        as (n & ->).
      destruct (heap w !! i) as [c|]; [|done]. simpl.
      destruct (iter_closeIfOpen_frame n (set_geometry bounds height c))
        as (Hp & Hq & _).
      change (Some (props (Nat.iter n closeIfOpen
                             (set_geometry bounds height c))) = Some (props c)
              ∧ Some (pending (Nat.iter n closeIfOpen
                                 (set_geometry bounds height c)))
                = Some (pending c)).
      by rewrite Hp, Hq.
    - destruct (openDropdown_lookup_other_iter i j bounds height doc w Hne)
        as (n & -> & _).
      destruct (heap w !! j) as [c|]; [|done]. simpl.
      by destruct (iter_closeIfOpen_frame n c) as (-> & -> & _). }
  split; [intros j; apply Hframe|]. split; [|split].
  - unfold openDropdown, closeAll. cbv zeta.
    by rewrite onInstance_length, closeEach_length, onInstance_length.
  - apply openDropdown_instances.
  - intros j. destruct (Hframe j) as [Hp Hq].
    destruct (heap (openDropdown i bounds height doc w) !! j) as [c'|],
      (heap w !! j) as [c|]; simplify_eq/=; [|done].
    unfold boundValue. by rewrite Hp, Hq.
Qed.

(** ** Refocus *)

Lemma refocusQuiet_perform e c :
  e ≠ NextTickFocus → refocusQuiet c → refocusQuiet (perform e c).
Proof.
  intros Hne [Hn He]. split; [done|]. script_simpl.
  rewrite elem_of_app, list_elem_of_singleton. intros [?|?]; congruence.
Qed.

Lemma refocusQuiet_ext c c' :
  noRefocus (props c') = noRefocus (props c) → effects c' = effects c →
  refocusQuiet c → refocusQuiet c'.
Proof. unfold refocusQuiet. by intros -> ->. Qed.

Lemma refocusQuiet_emit e c : refocusQuiet c → refocusQuiet (emit e c).
Proof. by apply refocusQuiet_perform. Qed.

Lemma refocusQuiet_assignLocalValue v c :
  refocusQuiet c → refocusQuiet (assignLocalValue v c).
Proof.
  intros H. by apply (refocusQuiet_ext (emit (UpdateModelValue v) c)),
    refocusQuiet_emit.
Qed.

Lemma refocusQuiet_pushLocalValue a v c :
  refocusQuiet c → refocusQuiet (pushLocalValue a v c).
Proof.
  intros H. by apply (refocusQuiet_ext (perform (ArrayPush v) c)),
    refocusQuiet_perform.
Qed.

Lemma refocusQuiet_closeDropdown c :
  refocusQuiet c → refocusQuiet (closeDropdown c).
Proof.
  intros [Hn He]. split; [by rewrite closeDropdown_props|].
  rewrite closeDropdown_effects. unfold closeEffects. rewrite Hn.
  rewrite elem_of_app. intros [?|Hin]; [done|].
  apply list_elem_of_In in Hin. simpl in Hin.
  destruct Hin as [?|[?|[?|[]]]]; discriminate.
Qed.

Lemma refocusQuiet_select o c : refocusQuiet c → refocusQuiet (select o c).
Proof.
  intros H.
  destruct (select_cases o c)
    as [Hd|[[Hd Hp]|[(Hd & Hp & Hm & a & Ha)|(Hd & Hp & Hm)]]].
  - by rewrite select_disabled.
  - rewrite select_passive by done.
    destruct (multiple (props c));
      auto using refocusQuiet_closeDropdown, refocusQuiet_emit.
  - rewrite (select_multiple_array o c a) by done.
    case_bool_decide;
      auto using refocusQuiet_assignLocalValue, refocusQuiet_pushLocalValue,
        refocusQuiet_emit.
  - rewrite select_scalar by done. cbv zeta.
    destruct (_ && _);
      auto using refocusQuiet_closeDropdown, refocusQuiet_assignLocalValue,
        refocusQuiet_emit.
Qed.

Lemma refocusQuiet_selectAll c : refocusQuiet c → refocusQuiet (selectAll c).
Proof.
  assert (Heach : ∀ l c', refocusQuiet c' → refocusQuiet (selectEach l c')).
  { unfold selectEach. induction l as [|o l IH]; intros c' H; simpl; [done|].
    by apply IH, refocusQuiet_select. }
  apply Heach.
Qed.

Lemma refocusQuiet_moveFocusToDropdown focusable lastOption c :
  refocusQuiet c → refocusQuiet (moveFocusToDropdown focusable lastOption c).
Proof.
  intros H. destruct focusable as [|f l]; [done|].
  unfold moveFocusToDropdown.
  match goal with
  | |- refocusQuiet (activateTabTrap (perform ?e c)) =>
      by apply (refocusQuiet_ext (perform e c)), refocusQuiet_perform
  end.
Qed.

Lemma refocusQuiet_closeIfOpen c : refocusQuiet c → refocusQuiet (closeIfOpen c).
Proof.
  unfold closeIfOpen. destruct (readsOpen c); [|done].
  apply refocusQuiet_closeDropdown.
Qed.

Lemma refocusQuiet_showSelf doc c : refocusQuiet c → refocusQuiet (showSelf doc c).
Proof.
  intros [Hn He]. split; [done|]. rewrite showSelf_effects, elem_of_app.
  intros [?|Hin]; [done|].
  apply list_elem_of_In in Hin. simpl in Hin.
  destruct Hin as [?|[?|[?|[]]]]; discriminate.
Qed.

Lemma refocusQuiet_render c : refocusQuiet c → refocusQuiet (render c).
Proof. unfold render. by destruct (showDropdown c). Qed.

Lemma refocusQuiet_setup p : noRefocus p = true → refocusQuiet (setup p).
Proof.
  intros Hp. unfold setup.
  match goal with
  | |- refocusQuiet (if _ then assignLocalValue _ ?c0 else _) =>
      assert (H0 : refocusQuiet c0)
  end.
  { split; [done|]. apply not_elem_of_nil. }
  destruct (_ && _); [|done]. by apply refocusQuiet_assignLocalValue.
Qed.

Lemma refocusQuiet_onInstance i f w :
  (∀ c, refocusQuiet c → refocusQuiet (f c)) →
  Forall refocusQuiet (heap w) →
  Forall refocusQuiet (heap (onInstance i f w)).
Proof. intros Hf Hw. apply Forall_alter; [done|]. intros x _. apply Hf. Qed.

Lemma refocusQuiet_closeEach l w :
  Forall refocusQuiet (heap w) → Forall refocusQuiet (heap (closeEach l w)).
Proof.
  unfold closeEach. revert w. induction l as [|a l IH]; intros w Hw; simpl.
  - done.
  - apply IH, refocusQuiet_onInstance; [|done].
    apply refocusQuiet_closeIfOpen.
Qed.

Lemma refocusQuiet_act w a :
  keepsNoRefocus a → Forall refocusQuiet (heap w) →
  Forall refocusQuiet (heap (act w a)).
Proof.
  destruct a; cbn [act keepsNoRefocus]; intros Ha Hw;
    try (apply refocusQuiet_onInstance; [|done]).
  - cbn [heap mount]. apply Forall_app. split; [done|].
    apply Forall_singleton. by apply refocusQuiet_setup.
  - done.
  - intros x [_ He]. by split.
  - intros x H. by apply (refocusQuiet_ext x).
  - intros x H. by apply (refocusQuiet_ext x).
  - unfold openDropdown, closeAll. cbv zeta.
    apply refocusQuiet_onInstance; [apply refocusQuiet_showSelf|].
    apply refocusQuiet_closeEach, refocusQuiet_onInstance; [|done].
    intros x H. by apply (refocusQuiet_ext x).
  - apply refocusQuiet_closeDropdown.
  - intros x. apply refocusQuiet_moveFocusToDropdown.
  - intros x. apply refocusQuiet_select.
  - apply refocusQuiet_selectAll.
  - apply refocusQuiet_render.
  - intros x H. by apply (refocusQuiet_ext x).
Qed.

(** X14. Without [noRefocus] every [closeDropdown] schedules a refocus of the
    remembered element.  When the parent sets [noRefocus] on every mount and
    with all new props, no instance ever schedules one, whatever is opened,
    closed, focused or selected. *)
Theorem noRefocus_never_refocuses :
  (∀ c, noRefocus (props c) = false →
        NextTickFocus ∈ effects (closeDropdown c))
  ∧ (∀ actions i c,
       Forall keepsNoRefocus actions →
       heap (run actions initialWorld) !! i = Some c →
       noRefocus (props c) = true ∧ NextTickFocus ∉ effects c).
Proof.
  split.
  - intros c Hn. rewrite closeDropdown_effects. unfold closeEffects.
    rewrite Hn, elem_of_app. right.
    apply list_elem_of_In. simpl. tauto.
  - intros actions i c Hacts.
    assert (Hall : ∀ w, Forall refocusQuiet (heap w) →
                        Forall refocusQuiet (heap (run actions w))).
    { unfold run. induction Hacts as [|a l Ha _ IH]; intros w Hw; simpl.
      - done.
      - by apply IH, refocusQuiet_act. }
    intros Hl.
    eapply (Forall_lookup_1 _ _ _ _ (Hall initialWorld (Forall_nil_2 _)) Hl).
Qed.

Lemma noRefocus_never_refocuses_witness :
  ∃ c, heap (run [AMount (noRefocusProps MNull false);
                  AOpen 0 (sampleBounds 10) 800%Q sampleDocument;
                  ASelect 0 (opt 1 false);
                  AOpen 0 (sampleBounds 10) 800%Q sampleDocument;
                  AClose 0] initialWorld) !! 0 = Some c
       ∧ (NextTickFocus ∉ effects c)
       ∧ NextTickFocus ∈ effects (closeDropdown (singleSample MNull)).
Proof.
  destruct noRefocus_never_refocuses as [Hclose Hquiet].
  eexists. split; [vm_compute; reflexivity|]. split.
  - refine (proj2 (Hquiet [AMount (noRefocusProps MNull false);
                           AOpen 0 (sampleBounds 10) 800%Q sampleDocument;
                           ASelect 0 (opt 1 false);
                           AOpen 0 (sampleBounds 10) 800%Q sampleDocument;
                           AClose 0] 0 _ _ _)).
    + repeat constructor.
    + vm_compute. reflexivity.
  - apply Hclose. reflexivity.
Defined.

(** ** Moving the focus into the panel *)

Lemma find_first {A} (p : A → bool) (l : list A) x :
  List.find p l = Some x →
  ∃ l1 l2, l = l1 ++ x :: l2 ∧ p x = true ∧ Forall (λ y, p y = false) l1.
Proof.
  induction l as [|y l IH]; simpl; [done|].
  destruct (p y) eqn:Hy.
  - intros [= ->]. by exists [], l.
  - intros Hf. destruct (IH Hf) as (l1 & l2 & -> & Hx & Hl1).
    exists (y :: l1), l2. split; [done|]. split; [done|]. by constructor.
Qed.

Lemma find_nothing {A} (p : A → bool) (l : list A) :
  List.find p l = None → Forall (λ y, p y = false) l.
Proof.
  induction l as [|y l IH]; simpl; [done|].
  destruct (p y) eqn:Hy; [done|]. intros Hf. constructor; auto.
Qed.

Lemma List_last_last {A} (l : list A) d :
  l ≠ [] → last l = Some (List.last l d).
Proof.
  induction l as [|x l IH]; [done|]. intros _.
  destruct l as [|y l]; [done|].
  change (last (x :: y :: l)) with (last (y :: l)).
  change (List.last (x :: y :: l) d) with (List.last (y :: l) d).
  by apply IH.
Qed.

(** X15. With no focusable option [moveFocusToDropdown] does nothing, and the
    tab trap is not activated.  Otherwise it focuses exactly one of the
    focusable options and activates the tab trap: the last one when asked
    for the last, else the first one that is [aria-selected], else the
    first one. *)
Theorem moveFocusToDropdown_focuses focusable lastOption c :
  (focusable = [] → moveFocusToDropdown focusable lastOption c = c)
  ∧ (focusable ≠ [] →
     ∃ f, f ∈ focusable
          ∧ effects (moveFocusToDropdown focusable lastOption c)
            = effects c ++ [Focus (element f)]
          ∧ tabTrap (moveFocusToDropdown focusable lastOption c) = true
          ∧ props (moveFocusToDropdown focusable lastOption c) = props c
          ∧ showDropdown (moveFocusToDropdown focusable lastOption c)
            = showDropdown c
          ∧ (lastOption = true → last focusable = Some f)
          ∧ (lastOption = false →
             (∃ l1 l2, focusable = l1 ++ f :: l2 ∧ ariaSelected f = true
                       ∧ Forall (λ g, ariaSelected g = false) l1)
             ∨ (head focusable = Some f
                ∧ Forall (λ g, ariaSelected g = false) focusable))).
Proof.
  split; [by intros ->|].
  destruct focusable as [|first rest]; [done|]. intros _.
  unfold moveFocusToDropdown.
  set (l := first :: rest).
  destruct lastOption.
  - exists (List.last l first).
    assert (Hlast : last l = Some (List.last l first))
      by (by apply List_last_last).
    split; [by apply last_Some_elem_of|].
    repeat split; try done.
  - destruct (List.find ariaSelected l) as [f|] eqn:Hf.
    + destruct (find_first _ _ _ Hf) as (l1 & l2 & Hl & Hsel & Hl1).
      exists f. split.
      { rewrite Hl. apply elem_of_app. right. left. }
      repeat split; try done. intros _. left. by exists l1, l2.
    + exists first. split; [left|].
      repeat split; try done. intros _. right.
      split; [done|]. by apply find_nothing.
Qed.

Lemma moveFocusToDropdown_focuses_witness :
  effects (moveFocusToDropdown sampleFocusable false multipleSample)
  = effects multipleSample ++ [Focus 11]
  ∧ effects (moveFocusToDropdown sampleFocusable true multipleSample)
    = effects multipleSample ++ [Focus 12]
  ∧ moveFocusToDropdown [] false multipleSample = multipleSample.
Proof.
  destruct (moveFocusToDropdown_focuses [] false multipleSample)
    as [Hempty _].
  split; [reflexivity|]. split; [reflexivity|]. exact (Hempty eq_refl).
Defined.

(** ** Setting up *)

(** X16. A component is set up closed, with no captured geometry, the tab
    trap off and nothing to refocus, and with the mode the parent gave.  It
    emits at set-up only in multiple mode with a [null] or [undefined] value;
    in every other case, a [null] value in single mode among them, the props
    are left as given. *)
Theorem setup_initial_state p :
  isOpen (setup p) = false
  ∧ tabTrap (setup p) = false
  ∧ inputElementBounds (setup p) = None
  ∧ windowHeight (setup p) = None
  ∧ lastFocusableOutsideElement (setup p) = None
  ∧ mode (props (setup p)) = mode p
  ∧ (effects (setup p) = []
     ↔ ¬ (multiple p = true
          ∧ (modelValue p = MNull ∨ modelValue p = MUndefined)))
  ∧ (effects (setup p) = [] → props (setup p) = p)
  ∧ (effects (setup p) = [] → boundValue (setup p) = modelValue p).
Proof.
  assert (Hnull : looselyNull (modelValue p) = true
                  ↔ modelValue p = MNull ∨ modelValue p = MUndefined).
  { destruct (modelValue p); simpl; intuition congruence. }
  unfold setup. destruct (looselyNull (modelValue p) && multiple p) eqn:E.
  - apply andb_true_iff in E as [Hn Hm]. apply Hnull in Hn.
    script_simpl. repeat split; try done. intros H. by destruct H.
  - apply andb_false_iff in E. script_simpl.
    repeat split; try done. intros _ [Hm Hn]. apply Hnull in Hn.
    destruct E; congruence.
Qed.

Lemma setup_initial_state_witness :
  props (setup (sampleProps MNull false false)) = sampleProps MNull false false
  ∧ props (setup (sampleProps (MPrimitive (PNumber 1)) true false))
    = sampleProps (MPrimitive (PNumber 1)) true false.
Proof.
  split.
  - apply (proj1 (proj2 (proj2 (proj2 (proj2 (proj2 (proj2 (proj2
             (setup_initial_state (sampleProps MNull false false)))))))))).
    reflexivity.
  - apply (proj1 (proj2 (proj2 (proj2 (proj2 (proj2 (proj2 (proj2
             (setup_initial_state
                (sampleProps (MPrimitive (PNumber 1)) true false)))))))))).
    reflexivity.
Defined.

(** ** Highlighted labels *)

Lemma slice_split (s : JsString) i n :
  slice s 0 i ++ slice s i (i + n) ++ sliceFrom s (i + n) = s.
Proof.
  unfold slice, sliceFrom. rewrite Nat.sub_0_r, drop_0.
  replace (i + n - i) with n by lia.
  rewrite <- (drop_drop s n i), take_drop. apply take_drop.
Qed.

Lemma slice_length (s : JsString) i j :
  length (slice s i j) = (j - i) `min` (length s - i).
Proof. unfold slice. by rewrite length_take, length_drop. Qed.

(** X17. For an option with a match whose text is not empty, the highlighted
    label is the shown label cut at the match index and at the match index
    plus the length of the matched text, both counted in UTF-16 code units,
    with the middle piece inside a [span]: the three pieces put together are
    the shown label again, the first is as long as the index and the middle
    as long as the matched text, as far as the label reaches.  The option
    itself is kept. *)
Theorem highlight_splits_label translate toString matchOf o m :
  matchOf o = Some m → matchedText m ≠ [] →
  ∃ before matched after,
    matchedLabel (highlight translate toString matchOf o)
    = before ++ spanOpen o ++ matched ++ spanClose ++ after
    ∧ before ++ matched ++ after = shownLabel translate toString o
    ∧ length before
      = matchIndex m `min` length (shownLabel translate toString o)
    ∧ length matched
      = length (matchedText m)
        `min` (length (shownLabel translate toString o) - matchIndex m)
    ∧ selectOption (highlight translate toString matchOf o) = o.
Proof.
  intros Hm Hne. unfold highlight. rewrite Hm, decide_False by done.
  cbv zeta. cbn [matchedLabel selectOption].
  set (l := shownLabel translate toString o).
  exists (slice l 0 (matchIndex m)),
    (slice l (matchIndex m) (matchIndex m + length (matchedText m))),
    (sliceFrom l (matchIndex m + length (matchedText m))).
  split; [done|]. split; [apply slice_split|].
  rewrite !slice_length. split; [lia|]. split; [lia|done].
Qed.

Lemma highlight_splits_label_witness :
  ∃ before matched after,
    matchedLabel (highlight sampleTranslate sampleToString sampleMatchOf berlin)
    = before ++ spanOpen berlin ++ matched ++ spanClose ++ after
    ∧ before ++ matched ++ after = label berlin
    ∧ length before = 2 ∧ length matched = 2.
Proof.
  destruct (highlight_splits_label sampleTranslate sampleToString
              sampleMatchOf berlin
              {| matchedText := ofAscii "rl"; matchIndex := 2 |} eq_refl)
    as (before & matched & after & Hl & Hs & Hb & Hm & _).
  - discriminate.
  - exists before, matched, after.
    split; [exact Hl|]. split; [exact Hs|]. split; [exact Hb|exact Hm].
Defined.
